(** * Timeblocking generator: interval engine, parser and day loop

    A shallow embedding of [scripts/generate_timeblocking.mjs].  Minute
    offsets are integers ([Z]); JavaScript strings are sequences of UTF-16
    code units ([list N]); a thrown [Error] is the [Throw] case of [result]. *)

From Stdlib Require Import ZArith NArith Lia String Ascii Sorted DecimalString.
From stdpp Require Import base decidable option list numbers sorting gmap.

Local Open Scope Z_scope.

(** ** Intervals *)

Record Interval := mkInterval { startMin : Z; endMin : Z }.

(** Minute [t] lies in the half-open range of [i]. *)
Definition covers (i : Interval) (t : Z) : Prop := startMin i <= t < endMin i.

Definition covered (l : list Interval) (t : Z) : Prop := Exists (fun i => covers i t) l.

(** [clamp(n, a, b) = Math.max(a, Math.min(b, n))] *)
Definition clamp (n a b : Z) : Z := Z.max a (Z.min b n).

(** *** mergeIntervals *)

(** The filter callback [(i) => i.endMin > i.startMin]. *)
Definition kept (i : Interval) : Prop := startMin i < endMin i.

#[global] Instance kept_dec i : Decision (kept i) :=
  Z_lt_dec (startMin i) (endMin i).

(** [Array.prototype.sort] with comparator [a.startMin - b.startMin] is a
    stable sort: elements with equal starts keep their input order. *)
Fixpoint insertByStart (x : Interval) (l : list Interval) : list Interval :=
  match l with
  | [] => [x]
  | y :: l' =>
      if decide (startMin x <= startMin y) then x :: y :: l'
      else y :: insertByStart x l'
  end.

Definition sortByStart (l : list Interval) : list Interval :=
  foldr insertByStart [] l.

(** One iteration of the merge loop: [last] is the final element of [merged];
    push a copy of [i] when there is no [last] or [i.startMin > last.endMin],
    otherwise extend [last.endMin]. *)
Fixpoint mergeStep (merged : list Interval) (i : Interval) : list Interval :=
  match merged with
  | [] => [i]
  | [last] =>
      if decide (endMin last < startMin i) then [last; i]
      else [mkInterval (startMin last) (Z.max (endMin last) (endMin i))]
  | x :: rest => x :: mergeStep rest i
  end.

Definition mergeIntervals (intervals : list Interval) : list Interval :=
  let sorted := sortByStart (filter kept intervals) in
  fold_left mergeStep sorted [].

(** *** subtractIntervals *)

(** The inner [for (const b of busy)] loop for one available interval [a]:
    the state is [cursor] and [out]; [continue] recurses with the state
    unchanged and [break] returns it. *)
Fixpoint subtractLoop (a : Interval) (cursor : Z) (out : list Interval)
    (busy : list Interval) : Z * list Interval :=
  match busy with
  | [] => (cursor, out)
  | b :: rest =>
      if decide (endMin b <= cursor) then subtractLoop a cursor out rest
      else if decide (endMin a <= startMin b) then (cursor, out)
      else
        let out' :=
          if decide (cursor < startMin b)
          then out ++ [mkInterval cursor (Z.min (startMin b) (endMin a))]
          else out in
        let cursor' := Z.max cursor (endMin b) in
        if decide (endMin a <= cursor') then (cursor', out')
        else subtractLoop a cursor' out' rest
  end.

(** Body of the outer [for (const a of available)] loop. *)
Definition subtractStep (busy : list Interval) (out : list Interval)
    (a : Interval) : list Interval :=
  let '(cursor, out') := subtractLoop a (startMin a) out busy in
  if decide (cursor < endMin a) then out' ++ [mkInterval cursor (endMin a)]
  else out'.

Definition subtractIntervals (available busy : list Interval) : list Interval :=
  fold_left (subtractStep busy) available [].

(** ** Strings

    A JavaScript string is its sequence of UTF-16 code units. *)

Abbreviation str := (list N).

(** An ASCII literal as a code-unit sequence. *)
Definition lit (s : string) : str := map N_of_ascii (list_ascii_of_string s).

(** [String(n)] for an integer [n]: decimal digits, with a leading minus sign
    for negative numbers. *)
Definition showZ (z : Z) : str := lit (NilZero.string_of_int (Z.to_int z)).

(** The code units that [String.prototype.trim] strips and the regular
    expression class [\s] matches (WhiteSpace and LineTerminator). *)
Definition isSpace (c : N) : bool :=
  (existsb (N.eqb c)
     [9; 10; 11; 12; 13; 32; 160; 5760; 8232; 8233; 8239; 8287; 12288; 65279]
   || ((8192 <=? c) && (c <=? 8202)))%N.

(** The class [\d]: the ten ASCII digits. *)
Definition isDigit (c : N) : bool := ((48 <=? c) && (c <=? 57))%N.

Fixpoint dropSpaces (s : str) : str :=
  match s with
  | c :: s' => if isSpace c then dropSpaces s' else s
  | [] => []
  end.

Definition trim (s : str) : str := rev (dropSpaces (rev (dropSpaces s))).

(** [s.split(sep)] for a one-unit separator: always at least one part. *)
Fixpoint splitOn (sep : N) (s : str) : list str :=
  match s with
  | [] => [[]]
  | c :: s' =>
      if (c =? sep)%N then [] :: splitOn sep s'
      else match splitOn sep s' with
           | p :: ps => (c :: p) :: ps
           | [] => [[c]]
           end
  end.

(** [Number(s)] on a string of decimal digits (the only strings it is applied
    to below: regular-expression groups matched by [\d] and the fields of
    the two window constants). *)
Definition digitsToZ (s : str) : Z :=
  fold_left (fun acc c => acc * 10 + (Z.of_N c - 48)) s 0.

(** [lines.join(sep)] *)
Fixpoint join (sep : str) (lines : list str) : str :=
  match lines with
  | [] => []
  | [l] => l
  | l :: rest => l ++ sep ++ join sep rest
  end.

(** [s.replace(":", "")]: a string pattern replaces the first occurrence only. *)
Fixpoint removeFirst (c : N) (s : str) : str :=
  match s with
  | [] => []
  | x :: s' => if (x =? c)%N then s' else x :: removeFirst c s'
  end.

(** [String(n).padStart(2, "0")] *)
Definition pad2 (n : Z) : str :=
  let s := showZ n in
  if decide (length s < 2)%nat then replicate (2 - length s) 48%N ++ s else s.

(** ** Errors *)

Inductive Error :=
| BadTime (s : str)      (* [new Error(`Bad time: ${s}`)] *)
| BadRange (range : str) (* [new Error(`Bad range: ${range}`)] *)
| TypeError.             (* a method call on [undefined] *)

Inductive result (A : Type) :=
| Ok (a : A)
| Throw (e : Error).
Arguments Ok {A} a.
Arguments Throw {A} e.

#[global] Instance result_ret : MRet result := fun A a => Ok a.
#[global] Instance result_bind : MBind result := fun A B f m =>
  match m with
  | Ok a => f a
  | Throw e => Throw e
  end.

(** ** Time parsing *)

Record Time := mkTime { hh : Z; mm : Z }.
Record Range := mkRange { start : Time; end_ : Time }.

(** Case-insensitive match of one unit against an ASCII capital letter (the
    [i] flag without the [u] flag relates a letter only to its ASCII lower
    case). *)
Definition matchesLetter (upper c : N) : bool := ((c =? upper) || (c =? upper + 32))%N.

(** The tail [\s*(AM|PM)$] of the pattern; yields group 3. *)
Definition matchMeridiem (s : str) : option str :=
  match dropSpaces s with
  | [a; m] =>
      if (matchesLetter 65 a || matchesLetter 80 a) && matchesLetter 77 m
      then Some [a; m] else None
  | _ => None
  end.

(** The part [:(\d{2})\s*(AM|PM)$] after the hour group [h]. *)
Definition matchAfterHour (h : str) (s : str) : option (str * str * str) :=
  match s with
  | colon :: d1 :: d2 :: rest =>
      if (colon =? 58)%N && isDigit d1 && isDigit d2
      then ap ← matchMeridiem rest; Some (h, [d1; d2], ap)
      else None
  | _ => None
  end.

(** [/^(\d{1,2}):(\d{2})\s*(AM|PM)$/i]: the greedy two-digit hour is tried
    first, then the one-digit hour.  Yields groups 1, 2 and 3. *)
Definition matchTime (s : str) : option (str * str * str) :=
  match s with
  | h1 :: rest =>
      if isDigit h1 then
        match
          match rest with
          | h2 :: rest' => if isDigit h2 then matchAfterHour [h1; h2] rest' else None
          | [] => None
          end
        with
        | Some groups => Some groups
        | None => matchAfterHour [h1] rest
        end
      else None
  | [] => None
  end.

(** [m[3].toUpperCase()] on the two ASCII letters of group 3. *)
Definition toUpperCase (s : str) : str :=
  map (fun c => if ((97 <=? c) && (c <=? 122))%N then (c - 32)%N else c) s.

Definition parseTime12h (s : str) : result Time :=
  match matchTime (trim s) with
  | None => Throw (BadTime s)
  | Some (m1, m2, m3) =>
      let hh := digitsToZ m1 in
      let mm := digitsToZ m2 in
      let ap := toUpperCase m3 in
      if decide (ap = lit "AM") then
        Ok (mkTime (if decide (hh = 12) then 0 else hh) mm)
      else
        Ok (mkTime (if decide (hh = 12) then hh else hh + 12) mm)
  end.

Definition parseRange (range : str) : result Range :=
  match map trim (splitOn 45 range) with
  | [p0; p1] =>
      a ← parseTime12h p0;
      b ← parseTime12h p1;
      Ok (mkRange a b)
  | _ => Throw (BadRange range)
  end.

(** [hmToMinutes]: only ever applied to the two window constants. *)
Definition hmToMinutes (hm : str) : Z :=
  match map digitsToZ (splitOn 58 hm) with
  | h :: m :: _ => h * 60 + m
  | _ => 0
  end.

Definition minutesToHm (min : Z) : str :=
  let h := min / 60 in
  let m := Z.rem min 60 in
  pad2 h ++ lit ":" ++ pad2 m.

(** ** Configuration (environment variables unset) *)

Definition TZID : str := lit "Asia/Dubai".
Definition DJ : str := lit "javi".
Definition DAYS : nat := 7.

Definition BREAKFAST_END : str := lit "08:30".
Definition DEFAULT_END : str := lit "13:00".
Definition BREAK_MIN : Z := 15.

Record Block := mkBlock { key : str; title : str; minutes : Z }.

Definition music : Block :=
  mkBlock (lit "music") (lit "M" ++ [250%N] ++ lit "sica (escuchar/descargar)") 30.
Definition nibango : Block :=
  mkBlock (lit "nibango") (lit "Nibango (deep work)") 90.
Definition youtube : Block :=
  mkBlock (lit "youtube") (lit "YouTube (v" ++ [237%N] ++ lit "deo viernes)") 60.

(** Priority order. *)
Definition BLOCKS : list Block := [music; nibango; youtube].

(** ** Morning window *)

(** The loop of [chooseMorningEnd]: the start of the first busy interval that
    is not skipped by [if (b.endMin <= hmToMinutes(BREAKFAST_END)) continue]. *)
Fixpoint earliestAfterBreakfast (busyMerged : list Interval) : option Z :=
  match busyMerged with
  | [] => None
  | b :: rest =>
      if decide (endMin b <= hmToMinutes BREAKFAST_END)
      then earliestAfterBreakfast rest
      else Some (startMin b)
  end.

Definition chooseMorningEnd (busyMerged : list Interval) (defaultEndMin : Z) : Z :=
  match earliestAfterBreakfast busyMerged with
  | None => defaultEndMin
  | Some earliest => clamp earliest 0 defaultEndMin
  end.

(** ** Block packer *)

(** A placement made by [scheduleBlocks]: the block, the day and the minute
    range [startMin, endMin) computed in the loop body.  The event record the
    source pushes is [eventOf] of it, built below at serialization. *)
Record ScheduledBlock := mkScheduled {
  sb_blk : Block;
  sb_ymd : str;
  sb_startMin : Z;
  sb_endMin : Z }.

(** The scan [for (idx = 0; idx < remainingFree.length; idx++)]: the index and
    the interval of the first one with [len >= needed]. *)
Fixpoint findFit (needed : Z) (remainingFree : list Interval) (idx : nat)
    : option (nat * Interval) :=
  match remainingFree with
  | [] => None
  | it :: rest =>
      let len := endMin it - startMin it in
      if decide (len < needed) then findFit needed rest (S idx)
      else Some (idx, it)
  end.

(** Body of [for (const blk of BLOCKS)] on the state [(events, remainingFree)]. *)
Definition placeStep (ymd : str) (st : list ScheduledBlock * list Interval)
    (blk : Block) : list ScheduledBlock * list Interval :=
  let '(events, remainingFree) := st in
  let needed := minutes blk in
  match findFit needed remainingFree 0 with
  | None => (events, remainingFree)
  | Some (idx, it) =>
      let startMin' := startMin it in
      let endMin' := startMin' + needed in
      let newStart := endMin' + BREAK_MIN in
      let newIntervals :=
        if decide (newStart < endMin it) then [mkInterval newStart (endMin it)]
        else [] in
      (events ++ [mkScheduled blk ymd startMin' endMin'],
       take idx remainingFree ++ newIntervals ++ drop (S idx) remainingFree)
  end.

Definition packBlocks (blocks : list Block) (freeIntervals : list Interval)
    (ymd : str) : list ScheduledBlock :=
  fst (fold_left (placeStep ymd) blocks ([], freeIntervals)).

Definition scheduleBlocks (freeIntervals : list Interval) (ymd : str)
    : list ScheduledBlock :=
  packBlocks BLOCKS freeIntervals ymd.

(** *** The packer in the words of the specification

    First fit of one block of length [duration]: the placed range and the
    updated free sequence, or [None] when no interval is long enough. *)
Fixpoint firstFitSpec (duration : Z) (free : list Interval)
    : option (Interval * list Interval) :=
  match free with
  | [] => None
  | it :: others =>
      if decide (duration <= endMin it - startMin it) then
        let placed := mkInterval (startMin it) (startMin it + duration) in
        let rest := mkInterval (startMin it + duration + 15) (endMin it) in
        Some (placed, if decide (startMin rest < endMin rest)
                      then rest :: others else others)
      else
        match firstFitSpec duration others with
        | Some (placed, others') => Some (placed, it :: others')
        | None => None
        end
  end.

(** Templates in priority order against the updated free sequence; a block
    that does not fit is skipped and the lower priorities are still tried. *)
Fixpoint packSpec (blocks : list Block) (free : list Interval) (ymd : str)
    : list ScheduledBlock :=
  match blocks with
  | [] => []
  | blk :: lower =>
      match firstFitSpec (minutes blk) free with
      | Some (placed, free') =>
          mkScheduled blk ymd (startMin placed) (endMin placed)
            :: packSpec lower free' ymd
      | None => packSpec lower free ymd
      end
  end.

(** ** Host functions

    [addDaysYmd], [weekdayIndexUTC] and [dtLocalFloating] consist of calls
    into the ECMAScript built-ins [Date] and [Number]; they are taken as
    parameters.  [weekdayIndexUTC] yields [None] for [NaN]. *)
Record Host := mkHost {
  addDaysYmd : str -> Z -> str;
  weekdayIndexUTC : str -> option Z;
  dtLocalFloating : str -> str -> str }.

(** ** Serialization *)

Record Event := mkEvent { uid : str; summary : str; dtstart : str; dtend : str }.

Definition uidForEvent (key ymd startHm : str) : str :=
  lit "tb-" ++ DJ ++ lit "-" ++ key ++ lit "-" ++ ymd ++ lit "-"
    ++ removeFirst 58 startHm ++ lit "@javibeat".

(** The object literal pushed onto [events] in [scheduleBlocks]. *)
Definition eventOf (H : Host) (sb : ScheduledBlock) : Event :=
  let startHm := minutesToHm (sb_startMin sb) in
  let endHm := minutesToHm (sb_endMin sb) in
  mkEvent (uidForEvent (key (sb_blk sb)) (sb_ymd sb) startHm)
          (title (sb_blk sb))
          (dtLocalFloating H (sb_ymd sb) startHm)
          (dtLocalFloating H (sb_ymd sb) endHm).

(** [.replace(/\.\d{3}Z$/, "Z")] *)
Fixpoint stripMillis (s : str) : str :=
  match s with
  | [dot; d1; d2; d3; z] =>
      if (dot =? 46)%N && isDigit d1 && isDigit d2 && isDigit d3 && (z =? 90)%N
      then lit "Z" else s
  | c :: s' => c :: stripMillis s'
  | [] => []
  end.

(** [dtstamp] from [nowIso = new Date().toISOString()]. *)
Definition dtstampOf (nowIso : str) : str :=
  stripMillis (List.filter (fun c => negb ((c =? 45) || (c =? 58))%N) nowIso).

Definition eventLines (dtstamp : str) (ev : Event) : list str :=
  [ lit "BEGIN:VEVENT";
    lit "UID:" ++ uid ev;
    lit "DTSTAMP:" ++ dtstamp;
    lit "SUMMARY:" ++ summary ev;
    lit "DTSTART;TZID=" ++ TZID ++ lit ":" ++ dtstart ev;
    lit "DTEND;TZID=" ++ TZID ++ lit ":" ++ dtend ev;
    lit "STATUS:CONFIRMED";
    lit "TRANSP:OPAQUE";
    lit "END:VEVENT" ].

(** The array [lines] of [buildIcs] before it is joined. *)
Definition icsLines (events : list Event) (nowIso : str) : list str :=
  [ lit "BEGIN:VCALENDAR";
    lit "VERSION:2.0";
    lit "PRODID:-//JaviBeat//Timeblocking//EN";
    lit "CALSCALE:GREGORIAN";
    lit "METHOD:PUBLISH";
    lit "X-WR-CALNAME:Timeblocking";
    lit "X-WR-TIMEZONE:" ++ TZID ]
  ++ concat (map (eventLines (dtstampOf nowIso)) events)
  ++ [ lit "END:VCALENDAR" ].

Definition CRLF : str := [13%N; 10%N].

Definition buildIcs (events : list Event) (nowIso : str) : str :=
  join CRLF (icsLines events nowIso) ++ CRLF.

(** ** The run *)

(** A commitment of the fetched document: [date] and [time] are strings when
    present ([None]: the field is missing or [null]). *)
Record Gig := mkGig { date : option str; time : option str }.

Record Data := mkData { server_date : str; gigs : list Gig }.

(** [!x] is false exactly for a present, non-empty string. *)
Definition truthy (x : option str) : bool :=
  match x with
  | Some (_ :: _) => true
  | _ => false
  end.

(** A gig that passes [if (!g?.date || !g?.time) continue]. *)
Definition grouped (g : Gig) : bool := truthy (date g) && truthy (time g).

(** Body of the grouping loop over [gigs]. *)
Definition groupStep (byDate : gmap str (list Gig)) (g : Gig) : gmap str (list Gig) :=
  if grouped g then
    match date g with
    | Some d =>
        let arr := default [] (byDate !! d) in
        <[d := arr ++ [g]]> byDate
    | None => byDate
    end
  else byDate.

Definition groupByDate (gigs : list Gig) : gmap str (list Gig) :=
  fold_left groupStep gigs ∅.

(** One gig of the day: parse its range and widen it by 60 minutes each side. *)
Definition busyOf (g : Gig) : result Interval :=
  match time g with
  | None => Throw TypeError
  | Some t =>
      r ← parseRange t;
      let startMin := hh (start r) * 60 + mm (start r) in
      let endMin := hh (end_ r) * 60 + mm (end_ r) in
      Ok (mkInterval (clamp (startMin - 60) 0 1440) (clamp (endMin + 60) 0 1440))
  end.

(** [for (const g of gigsForDay)]: the first failing parse aborts. *)
Fixpoint busyLoop (gigsForDay : list Gig) (busy : list Interval)
    : result (list Interval) :=
  match gigsForDay with
  | [] => Ok busy
  | g :: rest => b ← busyOf g; busyLoop rest (busy ++ [b])
  end.

(** The free intervals of a day from its merged busy set, or [None] when the
    iteration is abandoned by [if (morningEndMin <= morningStartMin) continue]. *)
Definition freeOfDay (busyMerged : list Interval) : option (list Interval) :=
  let morningStartMin := hmToMinutes BREAKFAST_END in
  let defaultEndMin := hmToMinutes DEFAULT_END in
  let morningEndMin := chooseMorningEnd busyMerged defaultEndMin in
  if decide (morningEndMin <= morningStartMin) then None
  else
    let available := [mkInterval morningStartMin morningEndMin] in
    Some (filter kept (subtractIntervals available busyMerged)).

(** The body of the day loop for a weekday [ymd]: its [dayEvents]. *)
Definition dayBlocks (ymd : str) (gigsForDay : list Gig)
    : result (list ScheduledBlock) :=
  busy ← busyLoop gigsForDay [];
  let busyMerged := mergeIntervals busy in
  match freeOfDay busyMerged with
  | None => Ok []
  | Some free => Ok (scheduleBlocks free ymd)
  end.

Definition isWeekday (dow : option Z) : bool :=
  match dow with
  | Some d => bool_decide (1 <= d) && bool_decide (d <= 5)
  | None => false
  end.

(** One iteration [i] of [for (let i = 0; i < DAYS; i++)]. *)
Definition dayStep (H : Host) (today : str) (byDate : gmap str (list Gig))
    (allEvents : list ScheduledBlock) (i : nat) : result (list ScheduledBlock) :=
  let ymd := addDaysYmd H today (Z.of_nat i) in
  let dow := weekdayIndexUTC H ymd in
  if isWeekday dow then
    let gigsForDay := default [] (byDate !! ymd) in
    dayEvents ← dayBlocks ymd gigsForDay;
    Ok (allEvents ++ dayEvents)
  else Ok allEvents.

Fixpoint daysLoop (H : Host) (today : str) (byDate : gmap str (list Gig))
    (days : list nat) (allEvents : list ScheduledBlock)
    : result (list ScheduledBlock) :=
  match days with
  | [] => Ok allEvents
  | i :: rest =>
      allEvents' ← dayStep H today byDate allEvents i;
      daysLoop H today byDate rest allEvents'
  end.

(** [allEvents] at the end of the day loop. *)
Definition mainBlocks (H : Host) (data : Data) : result (list ScheduledBlock) :=
  daysLoop H (server_date data) (groupByDate (gigs data)) (seq 0 DAYS) [].

(** [main]: the text written to [docs/timeblocking.ics], or the error with
    which the run exits before anything is written. *)
Definition main (H : Host) (data : Data) (nowIso : str) : result str :=
  allEvents ← mainBlocks H data;
  Ok (buildIcs (map (eventOf H) allEvents) nowIso).

(** The days of the iterations [days] that pass the weekday test. *)
Definition weekdaysOf (H : Host) (today : str) (days : list nat) : list str :=
  List.filter (fun ymd => isWeekday (weekdayIndexUTC H ymd))
              (map (fun i => addDaysYmd H today (Z.of_nat i)) days).

(** The weekdays among the [DAYS] days from [today], in loop order. *)
Definition processedDays (H : Host) (today : str) : list str :=
  weekdaysOf H today (seq 0 DAYS).

(** ** Reference host: the Gregorian calendar

    The three host functions as the built-ins compute them on date strings
    whose fields are decimal digits and clock strings made by [minutesToHm];
    used to evaluate runs on concrete documents. *)
Module Calendar.

(** Day number of a civil date, counted from 1970-01-01. *)
Definition daysFromCivil (y m d : Z) : Z :=
  let y' := if decide (m <= 2) then y - 1 else y in
  let era := y' / 400 in
  let yoe := y' - era * 400 in
  let mp := if decide (m <= 2) then m + 9 else m - 3 in
  let doy := (153 * mp + 2) / 5 + d - 1 in
  let doe := yoe * 365 + yoe / 4 - yoe / 100 + doy in
  era * 146097 + doe - 719468.

Definition civilFromDays (z : Z) : Z * Z * Z :=
  let z' := z + 719468 in
  let era := z' / 146097 in
  let doe := z' - era * 146097 in
  let yoe := (doe - doe / 1460 + doe / 36524 - doe / 146096) / 365 in
  let doy := doe - (365 * yoe + yoe / 4 - yoe / 100) in
  let mp := (5 * doy + 2) / 153 in
  let d := doy - (153 * mp + 2) / 5 + 1 in
  let m := if decide (mp < 10) then mp + 3 else mp - 9 in
  (if decide (m <= 2) then yoe + era * 400 + 1 else yoe + era * 400, m, d).

(** [ymdToDateParts]; [None] when a field is missing or not decimal. *)
Definition ymdToDateParts (ymd : str) : option (Z * Z * Z) :=
  match splitOn 45 ymd with
  | y :: m :: d :: _ =>
      if forallb isDigit (y ++ m ++ d)
      then Some (digitsToZ y, digitsToZ m, digitsToZ d) else None
  | _ => None
  end.

(** [Date.UTC(y, m - 1, d)] as a day number; years 0 to 99 mean 1900 to 1999. *)
Definition dateUTC (y m d : Z) : Z :=
  let y := if decide (0 <= y <= 99) then 1900 + y else y in
  let ym := y + (m - 1) / 12 in
  let mn := (m - 1) mod 12 in
  daysFromCivil ym (mn + 1) 1 + d - 1.

Definition NaN : str := lit "NaN".

(** [TimeClip]: a day number within 100,000,000 days of the epoch. *)
Definition inRange (t : Z) : bool :=
  bool_decide (-100000000 <= t) && bool_decide (t <= 100000000).

Definition addDaysYmd (ymd : str) (add : Z) : str :=
  let invalid := NaN ++ lit "-" ++ NaN ++ lit "-" ++ NaN in
  match ymdToDateParts ymd with
  | Some (y, m, d) =>
      if inRange (dateUTC y m d) && inRange (dateUTC y m d + add) then
        let '(y', m', d') := civilFromDays (dateUTC y m d + add) in
        showZ y' ++ lit "-" ++ pad2 m' ++ lit "-" ++ pad2 d'
      else invalid
  | None => invalid
  end.

Definition weekdayIndexUTC (ymd : str) : option Z :=
  match ymdToDateParts ymd with
  | Some (y, m, d) =>
      if inRange (dateUTC y m d) then Some ((dateUTC y m d + 4) mod 7) else None
  | None => None
  end.

Definition dtLocalFloating (ymd hm : str) : str :=
  match ymdToDateParts ymd, map digitsToZ (splitOn 58 hm) with
  | Some (y, m, d), H :: M :: _ =>
      showZ y ++ pad2 m ++ pad2 d ++ lit "T" ++ pad2 H ++ pad2 M ++ lit "00"
  | _, _ => NaN
  end.

Definition host : Host := mkHost addDaysYmd weekdayIndexUTC dtLocalFloating.

End Calendar.

(** ** Sample documents *)

(** Tuesday 2026-11-03, no commitments. *)
Definition dataTuesday : Data := mkData (lit "2026-11-03") [].

(** Monday 2026-11-02 with gigs on Tuesday and Thursday. *)
Definition dataGigs : Data :=
  mkData (lit "2026-11-02")
    [ mkGig (Some (lit "2026-11-03")) (Some (lit "10:00 AM - 02:00 PM"));
      mkGig (Some (lit "2026-11-05")) (Some (lit "08:00 AM - 09:00 AM"));
      mkGig (Some (lit "2026-11-05")) (Some (lit "11:00 PM - 01:00 AM")) ].

(** Monday 2026-11-02 with an unparseable gig on Saturday. *)
Definition dataWeekendBad : Data :=
  mkData (lit "2026-11-02")
    [ mkGig (Some (lit "2026-11-07")) (Some (lit "late night")) ].

(** Monday 2026-11-02 with an unparseable gig on Wednesday. *)
Definition dataWeekdayBad : Data :=
  mkData (lit "2026-11-02")
    [ mkGig (Some (lit "2026-11-04")) (Some (lit "late night")) ].

Definition clock1 : str := lit "2026-11-03T06:00:00.000Z".
Definition clock2 : str := lit "2026-11-03T06:00:01.000Z".

(** The blocks of the run on [dataGigs]. *)
Definition blocksGigs : list ScheduledBlock :=
  Eval vm_compute in
    match mainBlocks Calendar.host dataGigs with
    | Ok blocks => blocks
    | Throw _ => []
    end.

(** ** Predicates used in the statements *)

(** Order of the sort comparator. *)
Definition byStart (a b : Interval) : Prop := startMin a <= startMin b.

(** [a] ends strictly before [b] starts: neither overlapping nor touching. *)
Definition apart (a b : Interval) : Prop := endMin a < startMin b.

(** Merged: non-empty intervals, each strictly before all later ones. *)
Definition separated (l : list Interval) : Prop :=
  StronglySorted apart l /\ Forall kept l.

(** [a] ends no later than [b] starts (touching allowed). *)
Definition before (a b : Interval) : Prop := endMin a <= startMin b.

(** In increasing order, pairwise disjoint, no empty interval. *)
Definition sortedDisjoint (l : list Interval) : Prop :=
  StronglySorted before l /\ Forall kept l.

(** [x] lies inside [y]. *)
Definition within (x y : Interval) : Prop :=
  startMin y <= startMin x /\ endMin x <= endMin y.

(** What one available interval contributes once its inner loop has ended:
    the tail [if (cursor < a.endMin) out.push(...)] of [subtractStep]. *)
Definition finish (a : Interval) (st : Z * list Interval) : list Interval :=
  if decide (st.1 < endMin a) then st.2 ++ [mkInterval st.1 (endMin a)] else st.2.

(** Minute [t] lies in the range of the scheduled block [p]. *)
Definition slot (p : ScheduledBlock) (t : Z) : Prop :=
  sb_startMin p <= t < sb_endMin p.

(** Two blocks share no minute. *)
Definition clear (p q : ScheduledBlock) : Prop := forall t, ~ (slot p t /\ slot q t).

(** Two blocks of the same day share no minute. *)
Definition compatible (p q : ScheduledBlock) : Prop :=
  sb_ymd p = sb_ymd q -> forall t, ~ (slot p t /\ slot q t).

(** The interval is too short for a block of [needed] minutes. *)
Definition short (needed : Z) (it : Interval) : Prop :=
  endMin it - startMin it < needed.

#[global] Instance short_dec needed it : Decision (short needed it) :=
  Z_lt_dec (endMin it - startMin it) needed.

(** What replaces the interval [it] once a block of [needed] minutes and the
    break are taken from its start. *)
Definition remainder (needed : Z) (it : Interval) : list Interval :=
  if decide (startMin it + needed + 15 < endMin it)
  then [mkInterval (startMin it + needed + 15) (endMin it)] else [].

(** The gigs that [byDate] holds for [ymd], in document order. *)
Definition gigsOn (ymd : str) (gigs : list Gig) : list Gig :=
  filter (fun g => grouped g = true /\ date g = Some ymd) gigs.

(** The gig is dated on one of the processed days. *)
Definition relevant (H : Host) (today : str) (g : Gig) : bool :=
  match date g with
  | Some d => bool_decide (d ∈ processedDays H today)
  | None => false
  end.

(** A line of the calendar text that carries the generation timestamp. *)
Definition isDtstamp (line : str) : bool :=
  bool_decide (take 8 line = lit "DTSTAMP:").

(** The three blocks of a free morning of the day [ymd]. *)
Definition freeMorning (ymd : str) : list ScheduledBlock :=
  [ mkScheduled music ymd 510 540;
    mkScheduled nibango ymd 555 645;
    mkScheduled youtube ymd 660 720 ].

(** The lines of the calendar text that do not carry the timestamp. *)
Definition stableLines (lines : list str) : list str :=
  List.filter (fun l => negb (isDtstamp l)) lines.

(** Both ends of the interval are minutes of the day. *)
Definition inDay (b : Interval) : Prop :=
  0 <= startMin b <= 1440 /\ 0 <= endMin b <= 1440.

(** [minutesToHm n] is two digits, a colon and two digits, and reads back
    as [n]. *)
Definition clockOk (n : Z) : bool :=
  match minutesToHm n with
  | [a; b; c; d; e] =>
      isDigit a && isDigit b && (c =? 58)%N && isDigit d && isDigit e
      && (hmToMinutes (minutesToHm n) =? n)
  | _ => false
  end.

(** The number of hyphens in a string. *)
Definition hyphens (s : str) : nat := length (List.filter (N.eqb 45) s).

(** * Proofs *)

Ltac arith :=
  unfold kept, byStart, apart, before, within, short, slot, covers in *;
  simpl in *; first [lia | intuition lia].

(** ** The model on the documented scenarios *)

Example merge_example :
  mergeIntervals [mkInterval 600 700; mkInterval 5 5; mkInterval 100 200;
                  mkInterval 200 300; mkInterval 650 660]
  = [mkInterval 100 300; mkInterval 600 700].
Proof. reflexivity. Qed.

Example subtract_example :
  subtractIntervals [mkInterval 510 780] [mkInterval 0 520; mkInterval 600 630]
  = [mkInterval 520 600; mkInterval 630 780].
Proof. reflexivity. Qed.

Example parseRange_example :
  parseRange (lit "02:45 PM - 06:45 PM") = Ok (mkRange (mkTime 14 45) (mkTime 18 45)).
Proof. reflexivity. Qed.

(** A gig from 10:00 to 14:00 leaves room for Music only. *)
Example scenario_B :
  dayBlocks (lit "2026-11-03")
    [mkGig (Some (lit "2026-11-03")) (Some (lit "10:00 AM - 02:00 PM"))]
  = Ok [mkScheduled music (lit "2026-11-03") 510 540].
Proof. reflexivity. Qed.

(** A gig from 08:00 to 09:00 closes the morning before it opens. *)
Example scenario_C :
  dayBlocks (lit "2026-11-05")
    [mkGig (Some (lit "2026-11-05")) (Some (lit "08:00 AM - 09:00 AM"))]
  = Ok [].
Proof. reflexivity. Qed.

Example uid_example :
  uid (eventOf Calendar.host (mkScheduled music (lit "2026-11-03") 510 540))
  = lit "tb-javi-music-2026-11-03-0830@javibeat" /\
  dtstart (eventOf Calendar.host (mkScheduled music (lit "2026-11-03") 510 540))
  = lit "20261103T083000" /\
  dtstampOf clock1 = lit "20261103T060000Z".
Proof. by vm_compute. Qed.

Example processedDays_example :
  processedDays Calendar.host (lit "2026-11-07")
  = [lit "2026-11-09"; lit "2026-11-10"; lit "2026-11-11"; lit "2026-11-12";
     lit "2026-11-13"].
Proof. by vm_compute. Qed.

(** ** Coverage *)

Lemma covered_nil t : covered [] t <-> False.
Proof. unfold covered. apply Exists_nil. Qed.

Lemma covered_cons i l t : covered (i :: l) t <-> covers i t \/ covered l t.
Proof. unfold covered. apply Exists_cons. Qed.

Lemma covered_app l1 l2 t : covered (l1 ++ l2) t <-> covered l1 t \/ covered l2 t.
Proof. unfold covered. apply Exists_app. Qed.

Lemma covered_elem l t : covered l t <-> exists i, i ∈ l /\ covers i t.
Proof. unfold covered. apply Exists_exists. Qed.

Lemma covered_filter_kept l t : covered (filter kept l) t <-> covered l t.
Proof.
  rewrite !covered_elem. split.
  - intros (i & Hi & Hc). apply list_elem_of_filter in Hi. exists i. tauto.
  - intros (i & Hi & Hc). exists i. split; [|done].
    apply list_elem_of_filter. split; [|done].
    unfold kept, covers in *. lia.
Qed.

(** ** The stable sort *)

Lemma insertByStart_perm x l : insertByStart x l ≡ₚ x :: l.
Proof.
  induction l as [|y l IH]; simpl; [done|].
  case_decide; [done|]. rewrite IH. apply Permutation_swap.
Qed.

Lemma sortByStart_perm l : sortByStart l ≡ₚ l.
Proof.
  induction l as [|x l IH]; simpl; [done|].
  rewrite insertByStart_perm. by rewrite IH.
Qed.

Lemma insertByStart_sorted x l :
  StronglySorted byStart l -> StronglySorted byStart (insertByStart x l).
Proof.
  induction 1 as [|y l Hs IH Hall]; simpl.
  - repeat constructor.
  - case_decide as Hxy.
    + constructor; [by constructor|].
      constructor; [done|].
      eapply Forall_impl; [exact Hall|]. intros z Hz. unfold byStart in *. lia.
    + constructor; [done|].
      rewrite insertByStart_perm. constructor; [|done].
      unfold byStart in *. lia.
Qed.

Lemma sortByStart_sorted l : StronglySorted byStart (sortByStart l).
Proof.
  induction l as [|x l IH]; simpl; [constructor|].
  by apply insertByStart_sorted.
Qed.

(** ** mergeIntervals *)

Lemma mergeStep_snoc acc last i :
  mergeStep (acc ++ [last]) i =
  acc ++ (if decide (endMin last < startMin i) then [last; i]
          else [mkInterval (startMin last) (Z.max (endMin last) (endMin i))]).
Proof.
  induction acc as [|x acc IH]; simpl; [done|].
  rewrite <- IH. by destruct acc.
Qed.

Lemma StronglySorted_snoc {A} (R : A -> A -> Prop) l x :
  StronglySorted R l -> Forall (fun a => R a x) l -> StronglySorted R (l ++ [x]).
Proof.
  induction 1 as [|y l Hs IH Hall]; intros Hx; simpl.
  - repeat constructor.
  - inversion Hx; subst. constructor; [by apply IH|].
    apply Forall_app. split; [done|]. by constructor.
Qed.

Lemma StronglySorted_unsnoc {A} (R : A -> A -> Prop) l x :
  StronglySorted R (l ++ [x]) -> StronglySorted R l /\ Forall (fun a => R a x) l.
Proof.
  induction l as [|y l IH]; simpl; intros Hs.
  - split; constructor.
  - inversion Hs as [|? ? Hs' Hall]; subst.
    destruct (IH Hs') as [H1 H2].
    apply Forall_app in Hall as [Hall1 Hall2].
    split; constructor; try done. by inversion Hall2.
Qed.

Lemma mergeStep_separated acc i :
  separated acc -> kept i -> Forall (fun a => byStart a i) acc ->
  separated (mergeStep acc i) /\
  (forall t, covered (mergeStep acc i) t <-> covered acc t \/ covers i t) /\
  (forall j, byStart i j -> Forall (fun a => byStart a j) (mergeStep acc i)).
Proof.
  intros [Hs Hk] Hi Hle.
  destruct acc as [|last acc _] using rev_ind.
  - simpl. split; [split; repeat constructor; done|].
    split.
    + intros t. rewrite covered_cons, !covered_nil. tauto.
    + intros j Hj. by repeat constructor.
  - rewrite mergeStep_snoc.
    apply StronglySorted_unsnoc in Hs as [Hs Hlast].
    apply Forall_app in Hk as [Hk Hklast]. inversion Hklast as [|? ? Hkl _]; subst.
    apply Forall_app in Hle as [Hle Hlelast].
    inversion Hlelast as [|? ? Hll _]; subst.
    unfold kept, byStart, apart in *.
    case_decide as Hgap.
    + split; [split|split].
      * change [last; i] with ([last] ++ [i]). rewrite app_assoc.
        apply StronglySorted_snoc; [by apply StronglySorted_snoc|].
        apply Forall_app. split; [|repeat constructor; arith].
        eapply Forall_impl; [exact Hlast|]. intros a Ha. arith.
      * apply Forall_app. split; [done|]. by repeat constructor.
      * intros t. rewrite !covered_app, !covered_cons, !covered_nil. tauto.
      * intros j Hj. apply Forall_app. split.
        -- eapply Forall_impl; [exact Hle|]. intros a Ha. arith.
        -- repeat constructor; arith.
    + split; [split|split].
      * apply StronglySorted_snoc; [done|].
        eapply Forall_impl; [exact Hlast|]. intros a Ha. arith.
      * apply Forall_app. split; [done|]. repeat constructor. arith.
      * intros t. rewrite !covered_app, !covered_cons, !covered_nil.
        assert (covers (mkInterval (startMin last) (Z.max (endMin last) (endMin i))) t
                <-> covers last t \/ covers i t) as -> by arith.
        tauto.
      * intros j Hj. apply Forall_app. split.
        -- eapply Forall_impl; [exact Hle|]. intros a Ha. arith.
        -- repeat constructor; arith.
Qed.

Lemma merge_fold l : forall acc,
  separated acc -> Forall kept l -> StronglySorted byStart l ->
  Forall (fun i => Forall (fun a => byStart a i) acc) l ->
  separated (fold_left mergeStep l acc) /\
  (forall t, covered (fold_left mergeStep l acc) t <-> covered acc t \/ covered l t).
Proof.
  induction l as [|i l IH]; intros acc Hacc Hk Hs Hle; simpl.
  - split; [done|]. intros t. rewrite covered_nil. tauto.
  - inversion Hk as [|? ? Hki Hkl]; subst.
    inversion Hs as [|? ? Hsl Hil]; subst.
    inversion Hle as [|? ? Hlei Hlel]; subst.
    destruct (mergeStep_separated acc i Hacc Hki Hlei) as (Hsep & Hcov & Hnext).
    destruct (IH (mergeStep acc i) Hsep Hkl Hsl) as [H1 H2].
    + rewrite Forall_forall in Hil. apply Forall_forall. intros j Hj.
      by apply Hnext, Hil.
    + split; [done|]. intros t. rewrite H2, Hcov, covered_cons. tauto.
Qed.

Lemma mergeIntervals_separated l :
  separated (mergeIntervals l) /\
  (forall t, covered (mergeIntervals l) t <-> covered (filter kept l) t).
Proof.
  unfold mergeIntervals.
  destruct (merge_fold (sortByStart (filter kept l)) []) as [H1 H2].
  - split; constructor.
  - rewrite sortByStart_perm. apply Forall_forall. intros i Hi.
    apply list_elem_of_filter in Hi. tauto.
  - apply sortByStart_sorted.
  - apply Forall_forall. intros; constructor.
  - split; [done|]. intros t. rewrite H2, covered_nil.
    rewrite !covered_elem. setoid_rewrite (sortByStart_perm (filter kept l)). tauto.
Qed.

(** ** subtractIntervals *)

Lemma separated_sortedDisjoint l : separated l -> sortedDisjoint l.
Proof.
  intros [Hs Hk]. split; [|done].
  induction Hs as [|a l Hs IH Hall]; constructor.
  - apply IH. by inversion Hk.
  - eapply Forall_impl; [exact Hall|]. intros b Hb. arith.
Qed.

Lemma subtractStep_finish busy out a :
  subtractStep busy out a = finish a (subtractLoop a (startMin a) out busy).
Proof. unfold subtractStep, finish. by destruct (subtractLoop _ _ _ _). Qed.

Lemma finish_out a busy : forall c out,
  finish a (subtractLoop a c out busy) = out ++ finish a (subtractLoop a c [] busy).
Proof.
  induction busy as [|b busy IH]; intros c out; simpl.
  - unfold finish; simpl. case_decide; by rewrite ?app_nil_r.
  - repeat case_decide; try apply IH;
      try (unfold finish; simpl; repeat case_decide; try lia;
           by rewrite ?app_nil_r, <- ?app_assoc).
    rewrite IH, (IH _ [_]). by rewrite <- app_assoc.
Qed.

Lemma subtractLoop_spec a busy : forall c,
  sortedDisjoint busy -> c < endMin a ->
  let res := finish a (subtractLoop a c [] busy) in
  (forall t, covered res t <-> (c <= t < endMin a /\ ~ covered busy t)) /\
  StronglySorted before res /\ Forall kept res /\
  Forall (fun x => c <= startMin x /\ endMin x <= endMin a) res.
Proof.
  induction busy as [|b busy IH]; intros c [Hs Hk] Hc; simpl.
  - unfold finish; simpl. rewrite decide_True by done. simpl.
    split; [|split; [|split]]; try (repeat constructor; arith).
    intros t. rewrite covered_cons, !covered_nil. arith.
  - inversion Hs as [|? ? Hs' Hall]; subst.
    inversion Hk as [|? ? Hkb Hk']; subst.
    assert (Hlater : forall t, t < endMin b -> ~ covered busy t).
    { intros t Ht (x & Hx & Hcx)%covered_elem.
      rewrite Forall_forall in Hall. specialize (Hall x Hx). arith. }
    destruct (decide (endMin b <= c)) as [Hskip|Hskip].
    { destruct (IH c (conj Hs' Hk') Hc) as (H1 & H2 & H3 & H4).
      split; [|done]. intros t. rewrite H1, covered_cons. arith. }
    destruct (decide (endMin a <= startMin b)) as [Hbreak|Hbreak].
    { unfold finish; simpl. rewrite decide_True by done.
      split; [|split; [|split]]; try (repeat constructor; arith).
      intros t. rewrite !covered_cons, covered_nil.
      destruct (decide (t < endMin b)) as [Hlt|Hge];
          [specialize (Hlater t Hlt)|clear Hlater]; arith. }
    assert (Z.max c (endMin b) = endMin b) as -> by lia.
    assert (Z.min (startMin b) (endMin a) = startMin b) as -> by lia.
    destruct (decide (endMin a <= endMin b)) as [Hfull|Hfull].
    { unfold finish; simpl. rewrite decide_False by lia.
      case_decide as Hgap; simpl.
      - split; [|split; [|split]]; try (repeat constructor; arith).
        intros t. rewrite !covered_cons, covered_nil.
        destruct (decide (t < endMin b)) as [Hlt|Hge];
          [specialize (Hlater t Hlt)|clear Hlater]; arith.
      - split; [|split; [|split]]; try (repeat constructor; arith).
        intros t. rewrite covered_cons, covered_nil. arith. }
    destruct (IH (endMin b) (conj Hs' Hk')) as (H1 & H2 & H3 & H4); [lia|].
    case_decide as Hgap.
    + rewrite finish_out. simpl.
      split; [|split; [|split]].
      * intros t. rewrite !covered_cons, H1.
        destruct (decide (t < endMin b)) as [Hlt|Hge];
          [specialize (Hlater t Hlt)|clear Hlater]; arith.
      * constructor; [done|].
        eapply Forall_impl; [exact H4|]. intros x Hx. arith.
      * constructor; [arith|done].
      * constructor; [arith|].
        eapply Forall_impl; [exact H4|]. intros x Hx. arith.
    + split; [|split; [|split]]; try done.
      * intros t. rewrite covered_cons, H1. arith.
      * eapply Forall_impl; [exact H4|]. intros x Hx. arith.
Qed.

Lemma subtract_fold busy available : forall out,
  fold_left (subtractStep busy) available out =
  out ++ concat (map (subtractStep busy []) available).
Proof.
  induction available as [|a available IH]; intros out; simpl.
  - by rewrite app_nil_r.
  - rewrite IH, app_assoc. f_equal.
    rewrite !subtractStep_finish. apply finish_out.
Qed.

Lemma subtractIntervals_spec available busy :
  sortedDisjoint available -> sortedDisjoint busy ->
  let out := subtractIntervals available busy in
  (forall t, covered out t <-> (covered available t /\ ~ covered busy t)) /\
  StronglySorted before out /\ Forall kept out /\
  Forall (fun x => Exists (within x) available) out.
Proof.
  intros [Hs Hk] Hbusy. unfold subtractIntervals.
  induction Hs as [|a available Hs IH Hall]; simpl.
  - split; [|split; [|split]]; [|constructor..].
    intros t. rewrite !covered_nil. tauto.
  - inversion Hk as [|? ? Hka Hk']; subst.
    destruct (IH Hk') as (H1 & H2 & H3 & H4).
    rewrite subtract_fold in *. simpl in *.
    rewrite subtractStep_finish.
    destruct (subtractLoop_spec a busy (startMin a) Hbusy Hka) as (P1 & P2 & P3 & P4).
    simpl in *.
    split; [|split; [|split]].
    + intros t. rewrite covered_app, P1, H1, covered_cons. unfold covers. tauto.
    + assert (G : forall l1 l2, StronglySorted before l1 -> StronglySorted before l2 ->
                (forall x y, x ∈ l1 -> y ∈ l2 -> before x y) ->
                StronglySorted before (l1 ++ l2)).
      { clear. induction 1 as [|x l1 Hs1 IH1 Hx]; intros Hs2 Hc; simpl; [done|].
        constructor.
        - apply IH1; [done|]. intros. apply Hc; [by right|done].
        - apply Forall_app. split; [done|].
          apply Forall_forall. intros y Hy. apply Hc; [by left|done]. }
      apply G; [done|done|]. intros x y Hx Hy.
      rewrite Forall_forall in P4, H4, Hall.
      specialize (P4 x Hx). specialize (H4 y Hy).
      apply Exists_exists in H4 as (a' & Ha' & Hy').
      specialize (Hall a' Ha'). arith.
    + by apply Forall_app.
    + apply Forall_app. split.
      * eapply Forall_impl; [exact P4|]. intros x Hx. left. arith.
      * eapply Forall_impl; [exact H4|]. intros x Hx. by right.
Qed.

(** ** The packer *)

(** Either every interval is too short, or there is a first one that fits. *)
Lemma first_fit_cases needed (l : list Interval) :
  Forall (short needed) l \/
  exists pre it post,
    l = pre ++ it :: post /\ Forall (short needed) pre /\ ~ short needed it.
Proof.
  induction l as [|x l IH]; [by left|].
  destruct (decide (short needed x)) as [Hx|Hx].
  - destruct IH as [IH|(pre & it & post & -> & Hpre & Hit)].
    + left. by constructor.
    + right. exists (x :: pre), it, post. split; [done|]. split; [by constructor|done].
  - right. exists [], x, l. by repeat split.
Qed.

Lemma findFit_none needed l idx :
  Forall (short needed) l -> findFit needed l idx = None.
Proof.
  intros Hl. revert idx. induction Hl as [|x l Hx _ IH]; intros idx; simpl; [done|].
  unfold short in Hx. rewrite decide_True by done. apply IH.
Qed.

Lemma findFit_some needed pre it post idx :
  Forall (short needed) pre -> ~ short needed it ->
  findFit needed (pre ++ it :: post) idx = Some ((idx + length pre)%nat, it).
Proof.
  intros Hpre Hit. revert idx.
  induction Hpre as [|x pre Hx _ IH]; intros idx; simpl.
  - unfold short in Hit. rewrite decide_False by done. do 2 f_equal. lia.
  - unfold short in Hx. rewrite decide_True by done. rewrite IH. do 2 f_equal. lia.
Qed.

Lemma placeStep_skip ymd events free blk :
  Forall (short (minutes blk)) free ->
  placeStep ymd (events, free) blk = (events, free).
Proof. intros Hl. unfold placeStep. by rewrite findFit_none. Qed.

Lemma placeStep_place ymd events pre it post blk :
  Forall (short (minutes blk)) pre -> ~ short (minutes blk) it ->
  placeStep ymd (events, pre ++ it :: post) blk =
  (events ++ [mkScheduled blk ymd (startMin it) (startMin it + minutes blk)],
   pre ++ remainder (minutes blk) it ++ post).
Proof.
  intros Hpre Hit. unfold placeStep. rewrite findFit_some by done. simpl.
  f_equal. rewrite take_app_length.
  assert (drop (S (length pre)) (pre ++ it :: post) = post) as ->.
  { rewrite (cons_middle it pre post), app_assoc.
    replace (S (length pre)) with (length (pre ++ [it]))
      by (rewrite length_app; simpl; lia).
    apply drop_app_length. }
  done.
Qed.

Lemma packBlocks_fold ymd blocks : forall events free,
  fst (fold_left (placeStep ymd) blocks (events, free)) =
  events ++ packBlocks blocks free ymd.
Proof.
  unfold packBlocks.
  induction blocks as [|blk blocks IH]; intros events free; cbn [fold_left].
  - simpl. by rewrite app_nil_r.
  - destruct (placeStep ymd (events, free) blk) as [ev' free'] eqn:E1.
    destruct (placeStep ymd ([], free) blk) as [ev0 free0] eqn:E0.
    assert (ev' = events ++ ev0 /\ free' = free0) as [-> ->].
    { destruct (first_fit_cases (minutes blk) free)
        as [Hs|(pre & it & post & -> & Hpre & Hit)].
      - rewrite placeStep_skip in E1, E0 by done.
        inversion E1; inversion E0; subst. by rewrite app_nil_r.
      - rewrite placeStep_place in E1, E0 by done.
        inversion E1; inversion E0; subst. done. }
    rewrite IH, (IH ev0). by rewrite app_assoc.
Qed.

Lemma packBlocks_skip ymd blk lower free :
  Forall (short (minutes blk)) free ->
  packBlocks (blk :: lower) free ymd = packBlocks lower free ymd.
Proof.
  intros Hs. unfold packBlocks at 1. cbn [fold_left].
  rewrite placeStep_skip by done. by rewrite packBlocks_fold.
Qed.

Lemma packBlocks_place ymd blk lower pre it post :
  Forall (short (minutes blk)) pre -> ~ short (minutes blk) it ->
  packBlocks (blk :: lower) (pre ++ it :: post) ymd =
  mkScheduled blk ymd (startMin it) (startMin it + minutes blk)
    :: packBlocks lower (pre ++ remainder (minutes blk) it ++ post) ymd.
Proof.
  intros Hpre Hit. unfold packBlocks at 1. cbn [fold_left].
  rewrite placeStep_place by done. by rewrite packBlocks_fold.
Qed.

Lemma firstFitSpec_none needed l :
  Forall (short needed) l -> firstFitSpec needed l = None.
Proof.
  induction 1 as [|x l Hx _ IH]; simpl; [done|].
  unfold short in Hx. rewrite decide_False by lia. by rewrite IH.
Qed.

Lemma firstFitSpec_some needed pre it post :
  Forall (short needed) pre -> ~ short needed it ->
  firstFitSpec needed (pre ++ it :: post) =
  Some (mkInterval (startMin it) (startMin it + needed),
        pre ++ remainder needed it ++ post).
Proof.
  intros Hpre Hit. induction Hpre as [|x pre Hx _ IH]; simpl.
  - unfold short in Hit. rewrite decide_True by lia.
    unfold remainder. by destruct (decide _).
  - unfold short in Hx. rewrite decide_False by lia. by rewrite IH.
Qed.

Lemma packBlocks_packSpec blocks : forall free ymd,
  packBlocks blocks free ymd = packSpec blocks free ymd.
Proof.
  induction blocks as [|blk lower IH]; intros free ymd; [done|].
  destruct (first_fit_cases (minutes blk) free)
    as [Hs|(pre & it & post & -> & Hpre & Hit)]; simpl.
  - rewrite packBlocks_skip, firstFitSpec_none by done. apply IH.
  - rewrite packBlocks_place, firstFitSpec_some by done. simpl. by rewrite IH.
Qed.

(** Taking a block and the break from the first fitting interval keeps the
    free sequence ordered, inside what was free, and clear of the block. *)
Lemma consume_sorted needed pre it post :
  0 <= needed -> ~ short needed it ->
  StronglySorted before (pre ++ it :: post) ->
  StronglySorted before (pre ++ remainder needed it ++ post) /\
  (forall t, covered (pre ++ remainder needed it ++ post) t ->
             covered (pre ++ it :: post) t) /\
  (forall t, startMin it <= t < startMin it + needed ->
             covered (pre ++ it :: post) t /\
             ~ covered (pre ++ remainder needed it ++ post) t).
Proof.
  intros Hn Hit Hs.
  apply StronglySorted_app in Hs as (Hcross & Hpre & Hs).
  apply StronglySorted_cons in Hs as [Hpost Hs].
  assert (Hrem : forall x, x ∈ remainder needed it ->
            startMin it + needed < startMin x /\ endMin x = endMin it /\ within x it).
  { unfold remainder. intros x. case_decide; [|by intros ?%elem_of_nil].
    intros ->%list_elem_of_singleton. arith. }
  split; [|split].
  - apply StronglySorted_app. split; [|split; [done|]].
    + intros x y Hx [Hy|Hy]%elem_of_app.
      * apply Hrem in Hy. specialize (Hcross x it Hx (list_elem_of_here _ _)). arith.
      * apply Hcross; [done|]. by right.
    + apply StronglySorted_app. split; [|split; [|done]].
      * intros x y Hx%Hrem Hy. rewrite Forall_forall in Hpost.
        specialize (Hpost y Hy). arith.
      * unfold remainder. case_decide; repeat constructor.
  - intros t. rewrite !covered_app, covered_cons.
    intros [?|[Hc|?]]; [tauto| |tauto].
    apply covered_elem in Hc as (x & Hx%Hrem & Hc). arith.
  - intros t Ht. rewrite !covered_app, covered_cons. split; [arith|].
    intros [Hc|[Hc|Hc]]; apply covered_elem in Hc as (x & Hx & Hc).
    + specialize (Hcross x it Hx (list_elem_of_here _ _)). arith.
    + apply Hrem in Hx. arith.
    + rewrite Forall_forall in Hpost. specialize (Hpost x Hx). arith.
Qed.

Lemma packBlocks_props blocks :
  Forall (fun b => 0 < minutes b) blocks ->
  forall free ymd, StronglySorted before free ->
  Forall (fun p => sb_ymd p = ymd /\ sb_startMin p < sb_endMin p /\
                   forall t, slot p t -> covered free t)
         (packBlocks blocks free ymd) /\
  StronglySorted clear (packBlocks blocks free ymd).
Proof.
  induction 1 as [|blk lower Hpos _ IH]; intros free ymd Hs.
  - split; constructor.
  - destruct (first_fit_cases (minutes blk) free)
      as [Hshort|(pre & it & post & -> & Hpre & Hit)].
    + rewrite packBlocks_skip by done. by apply IH.
    + rewrite packBlocks_place by done.
      destruct (consume_sorted (minutes blk) pre it post) as (Hs' & Hsub & Hnew);
        [lia|done|done|].
      destruct (IH _ ymd Hs') as [Hall Hclear].
      split.
      * constructor.
        -- split; [done|]. split; [arith|]. intros t Ht. by apply Hnew.
        -- eapply Forall_impl; [exact Hall|]. intros p (? & ? & Hp).
           split; [done|]. split; [done|]. intros t Ht. by apply Hsub, Hp.
      * constructor; [done|].
        eapply Forall_impl; [exact Hall|]. intros p (? & ? & Hp) t [Ht1 Ht2].
        apply (Hnew t); [exact Ht1|]. by apply Hp.
Qed.

(** ** One day *)

Lemma morningStart_510 : hmToMinutes BREAKFAST_END = 510.
Proof. reflexivity. Qed.

Lemma defaultEnd_780 : hmToMinutes DEFAULT_END = 780.
Proof. reflexivity. Qed.

Lemma BLOCKS_positive : Forall (fun b => 0 < minutes b) BLOCKS.
Proof. repeat constructor. Qed.

Lemma filter_kept_id l : Forall kept l -> filter kept l = l.
Proof.
  induction 1 as [|x l Hx _ IH]; [done|].
  rewrite filter_cons_True by done. by rewrite IH.
Qed.

Lemma freeOfDay_spec busy free :
  freeOfDay (mergeIntervals busy) = Some free ->
  StronglySorted before free /\
  forall t, covered free t <->
            (510 <= t < chooseMorningEnd (mergeIntervals busy) 780 /\
             ~ covered busy t).
Proof.
  unfold freeOfDay. rewrite morningStart_510, defaultEnd_780.
  case_decide as Hwin; [done|]. intros [= <-].
  destruct (mergeIntervals_separated busy) as [Hsep Hcov].
  destruct (subtractIntervals_spec
              [mkInterval 510 (chooseMorningEnd (mergeIntervals busy) 780)]
              (mergeIntervals busy)) as (H1 & H2 & H3 & _).
  - split; repeat constructor. arith.
  - by apply separated_sortedDisjoint.
  - rewrite filter_kept_id by done. split; [done|].
    intros t. rewrite H1, Hcov, covered_filter_kept, covered_cons, covered_nil.
    arith.
Qed.

Lemma dayBlocks_inv ymd gigsForDay P :
  dayBlocks ymd gigsForDay = Ok P ->
  exists busy, busyLoop gigsForDay [] = Ok busy /\
    match freeOfDay (mergeIntervals busy) with
    | None => P = []
    | Some free => P = scheduleBlocks free ymd
    end.
Proof.
  unfold dayBlocks. destruct (busyLoop gigsForDay []) as [busy|e]; simpl; [|done].
  intros HP. exists busy. split; [done|].
  destruct (freeOfDay _); by inversion HP.
Qed.

Lemma dayBlocks_props ymd gigsForDay busy P :
  busyLoop gigsForDay [] = Ok busy ->
  dayBlocks ymd gigsForDay = Ok P ->
  Forall (fun p => sb_ymd p = ymd /\ sb_startMin p < sb_endMin p /\
            forall t, slot p t ->
              510 <= t < chooseMorningEnd (mergeIntervals busy) 780 /\
              ~ covered busy t /\ ~ covered (mergeIntervals busy) t) P /\
  StronglySorted clear P.
Proof.
  intros Hbusy (busy' & Hbusy' & HP)%dayBlocks_inv.
  rewrite Hbusy in Hbusy'. injection Hbusy' as <-.
  destruct (freeOfDay (mergeIntervals busy)) as [free|] eqn:Hfree; subst P.
  - apply freeOfDay_spec in Hfree as [Hs Hcov].
    destruct (packBlocks_props BLOCKS BLOCKS_positive free ymd Hs) as [Hall Hclear].
    split; [|done].
    eapply Forall_impl; [exact Hall|]. intros p (? & ? & Hp).
    split; [done|]. split; [done|]. intros t Ht.
    apply Hp, Hcov in Ht as [? ?]. split; [done|]. split; [done|].
    destruct (mergeIntervals_separated busy) as [_ Hm].
    by rewrite Hm, covered_filter_kept.
  - split; constructor.
Qed.

(** ** The day loop *)

Lemma groupByDate_fold gigs d : forall m : gmap str (list Gig),
  default [] (fold_left groupStep gigs m !! d) = default [] (m !! d) ++ gigsOn d gigs.
Proof.
  unfold gigsOn.
  induction gigs as [|g gigs IH]; intros m; simpl.
  - by rewrite app_nil_r.
  - rewrite IH. unfold groupStep.
    destruct (grouped g) eqn:Hg.
    + destruct (date g) as [d'|] eqn:Hd.
      * destruct (decide (d' = d)) as [->|Hne].
        -- rewrite lookup_insert_eq. simpl.
           rewrite filter_cons_True by done. by rewrite <- app_assoc.
        -- rewrite lookup_insert_ne by done.
           rewrite filter_cons_False; [done|]. intros [_ ?]. congruence.
      * unfold grouped in Hg. rewrite Hd in Hg. done.
    + rewrite filter_cons_False; [done|]. intros [? _]. congruence.
Qed.

Lemma groupByDate_lookup gigs d :
  default [] (groupByDate gigs !! d) = gigsOn d gigs.
Proof. unfold groupByDate. by rewrite groupByDate_fold, lookup_empty. Qed.

Lemma StronglySorted_impl {A} (R1 R2 : A -> A -> Prop) l :
  (forall x y, R1 x y -> R2 x y) -> StronglySorted R1 l -> StronglySorted R2 l.
Proof.
  intros HR. induction 1 as [|x l Hs IH Hall]; constructor; [done|].
  eapply Forall_impl; [exact Hall|]. auto.
Qed.

Lemma StronglySorted_lookup {A} (R : A -> A -> Prop) l :
  StronglySorted R l ->
  forall i j x y, (i < j)%nat -> l !! i = Some x -> l !! j = Some y -> R x y.
Proof.
  induction 1 as [|a l Hs IH Hall]; intros i j x y Hij Hi Hj; [done|].
  destruct j as [|j]; [lia|]. simpl in Hj.
  destruct i as [|i]; simpl in Hi.
  - injection Hi as ->. rewrite Forall_forall in Hall.
    apply Hall. by eapply list_elem_of_lookup_2.
  - eapply (IH i j); [lia|done..].
Qed.

Section Run.
Context (H : Host) (today : str) (byDate : gmap str (list Gig)).

Lemma weekdaysOf_cons i days :
  weekdaysOf H today (i :: days) =
  if isWeekday (weekdayIndexUTC H (addDaysYmd H today (Z.of_nat i)))
  then addDaysYmd H today (Z.of_nat i) :: weekdaysOf H today days
  else weekdaysOf H today days.
Proof. done. Qed.

Lemma daysLoop_cons i days acc :
  daysLoop H today byDate (i :: days) acc =
  dayStep H today byDate acc i ≫= daysLoop H today byDate days.
Proof. done. Qed.

(** What a successful loop appends: blocks of processed days, each made by
    that day's [dayBlocks]; with distinct days, compatible in pairs. *)
Lemma daysLoop_blocks days : forall acc blocks,
  daysLoop H today byDate days acc = Ok blocks ->
  exists news, blocks = acc ++ news /\
    Forall (fun p => sb_ymd p ∈ weekdaysOf H today days /\
              exists P, dayBlocks (sb_ymd p) (default [] (byDate !! sb_ymd p)) = Ok P
                        /\ p ∈ P) news /\
    (NoDup (weekdaysOf H today days) -> StronglySorted compatible news).
Proof.
  induction days as [|i days IH]; intros acc blocks; simpl daysLoop.
  - intros [= <-]. exists []. rewrite app_nil_r. repeat split; constructor.
  - unfold dayStep. rewrite weekdaysOf_cons.
    set (ymd := addDaysYmd H today (Z.of_nat i)).
    destruct (isWeekday (weekdayIndexUTC H ymd)); simpl.
    + destruct (dayBlocks ymd (default [] (byDate !! ymd))) as [P|e] eqn:HP;
        simpl; [|done].
      intros (news & -> & Hall & Hcompat)%IH.
      exists (P ++ news). split; [by rewrite app_assoc|].
      destruct (dayBlocks_inv _ _ _ HP) as (busy & Hbusy & _).
      destruct (dayBlocks_props _ _ _ _ Hbusy HP) as [HallP HclearP].
      assert (Hday : forall p, p ∈ P -> sb_ymd p = ymd).
      { rewrite Forall_forall in HallP. intros p Hp. by apply HallP. }
      split; [apply Forall_app; split|].
      * apply Forall_forall. intros p Hp. rewrite (Hday p Hp).
        split; [by left|]. by exists P.
      * eapply Forall_impl; [exact Hall|]. intros p [? ?]. split; [by right|done].
      * intros [Hfresh Hnd]%NoDup_cons. apply StronglySorted_app.
        split; [|split; [|by apply Hcompat]].
        -- intros p q Hp Hq Heq. rewrite Forall_forall in Hall.
           destruct (Hall q Hq) as [Hin _].
           rewrite <- Heq, (Hday p Hp) in Hin. done.
        -- eapply StronglySorted_impl; [|exact HclearP]. intros p q Hc _. exact Hc.
    + intros (news & -> & Hall & Hcompat)%IH. by exists news.
Qed.

(** The loop consults [byDate] at processed days only. *)
Lemma daysLoop_ext (byDate' : gmap str (list Gig)) days : forall acc,
  (forall d, d ∈ weekdaysOf H today days ->
             default [] (byDate !! d) = default [] (byDate' !! d)) ->
  daysLoop H today byDate days acc = daysLoop H today byDate' days acc.
Proof.
  induction days as [|i days IH]; intros acc Hext; [done|].
  simpl daysLoop. unfold dayStep. rewrite weekdaysOf_cons in Hext.
  set (ymd := addDaysYmd H today (Z.of_nat i)) in *.
  destruct (isWeekday (weekdayIndexUTC H ymd)); simpl.
  - rewrite <- (Hext ymd) by (by left).
    destruct (dayBlocks ymd _); simpl; [|done].
    apply IH. intros d Hd. apply Hext. by right.
  - by apply IH.
Qed.

(** A processed day with a gig that does not parse stops the loop. *)
Lemma daysLoop_throws days d : forall acc,
  d ∈ weekdaysOf H today days ->
  (exists e, busyLoop (default [] (byDate !! d)) [] = Throw e) ->
  exists e, daysLoop H today byDate days acc = Throw e.
Proof.
  induction days as [|i days IH]; intros acc Hd Hbad.
  - by apply elem_of_nil in Hd.
  - simpl daysLoop. unfold dayStep. rewrite weekdaysOf_cons in Hd.
    set (ymd := addDaysYmd H today (Z.of_nat i)) in *.
    destruct (isWeekday (weekdayIndexUTC H ymd)); simpl; [|by apply IH].
    destruct (dayBlocks ymd (default [] (byDate !! ymd))) as [P|e] eqn:HP;
      simpl; [|by exists e].
    apply elem_of_cons in Hd as [->|Hd]; [|by apply IH].
    destruct Hbad as [e He].
    apply dayBlocks_inv in HP as (busy & Hbusy & _). congruence.
Qed.

End Run.

(** * The claims *)

Lemma compatible_sym p q : compatible p q -> compatible q p.
Proof. intros Hc Heq t [? ?]. by apply (Hc (eq_sym Heq) t). Qed.

(** C1 (no double-booking).  In a run that completes, over a horizon whose
    processed days are distinct calendar days: two scheduled blocks at
    different positions of the output that carry the same day share no minute;
    and no minute of a scheduled block lies in a busy interval of its day,
    neither in a gig's range widened by 60 minutes on each side and clamped,
    nor in the merged busy set.  Within one iteration of the day loop the
    blocks share no minute, whatever the days are. *)
Theorem no_double_booking (H : Host) (data : Data) (blocks : list ScheduledBlock) :
  NoDup (processedDays H (server_date data)) ->
  mainBlocks H data = Ok blocks ->
  (forall i j p q, i <> j -> blocks !! i = Some p -> blocks !! j = Some q ->
                   compatible p q) /\
  (forall p, p ∈ blocks ->
     exists busy,
       busyLoop (gigsOn (sb_ymd p) (gigs data)) [] = Ok busy /\
       forall t, slot p t ->
                 ~ covered busy t /\ ~ covered (mergeIntervals busy) t) /\
  (forall ymd gigsForDay P i j p q,
     dayBlocks ymd gigsForDay = Ok P ->
     i <> j -> P !! i = Some p -> P !! j = Some q -> clear p q).
Proof.
  intros Hnd Hrun. unfold mainBlocks in Hrun.
  apply daysLoop_blocks in Hrun as (news & -> & Hall & Hcompat).
  simpl. split; [|split].
  - specialize (Hcompat Hnd). intros i j p q Hij Hi Hj.
    destruct (decide (i < j)%nat) as [Hlt|Hge].
    + by eapply (StronglySorted_lookup _ _ Hcompat i j).
    + apply compatible_sym.
      eapply (StronglySorted_lookup _ _ Hcompat j i); [lia|done..].
  - intros p Hp. rewrite Forall_forall in Hall.
    destruct (Hall p Hp) as [_ (P & HP & HpP)].
    rewrite groupByDate_lookup in HP.
    destruct (dayBlocks_inv _ _ _ HP) as (busy & Hbusy & _).
    exists busy. split; [done|].
    destruct (dayBlocks_props _ _ _ _ Hbusy HP) as [HallP _].
    rewrite Forall_forall in HallP.
    destruct (HallP p HpP) as (_ & _ & Hslot).
    intros t Ht. by apply Hslot.
  - intros ymd gigsForDay P i j p q HP Hij Hi Hj.
    destruct (dayBlocks_inv _ _ _ HP) as (busy & Hbusy & _).
    destruct (dayBlocks_props _ _ _ _ Hbusy HP) as [_ Hclear].
    destruct (decide (i < j)%nat) as [Hlt|Hge].
    + by eapply (StronglySorted_lookup _ _ Hclear i j).
    + intros t [? ?].
      eapply (StronglySorted_lookup _ _ Hclear j i); [lia|done..].
Qed.

Lemma no_double_booking_witness :
  (forall i j p q, i <> j -> blocksGigs !! i = Some p -> blocksGigs !! j = Some q ->
                   compatible p q) /\
  (forall p, p ∈ blocksGigs ->
     exists busy,
       busyLoop (gigsOn (sb_ymd p) (gigs dataGigs)) [] = Ok busy /\
       forall t, slot p t ->
                 ~ covered busy t /\ ~ covered (mergeIntervals busy) t) /\
  (forall ymd gigsForDay P i j p q,
     dayBlocks ymd gigsForDay = Ok P ->
     i <> j -> P !! i = Some p -> P !! j = Some q -> clear p q).
Proof.
  apply (no_double_booking Calendar.host dataGigs blocksGigs).
  - apply (bool_decide_unpack _). vm_compute. exact I.
  - vm_compute. reflexivity.
Defined.

(** C2 (merge correctness).  [mergeIntervals] works on the kept inputs only
    (those with [endMin > startMin]); its output has no empty interval, is
    strictly increasing by start, each interval ends strictly before every
    later one starts (no overlap, no touching), and it covers exactly the
    minutes the kept inputs cover. *)
Theorem mergeIntervals_correct (intervals : list Interval) :
  mergeIntervals intervals = mergeIntervals (filter kept intervals) /\
  Forall kept (mergeIntervals intervals) /\
  StronglySorted (fun a b => startMin a < startMin b) (mergeIntervals intervals) /\
  StronglySorted apart (mergeIntervals intervals) /\
  (forall t, covered (mergeIntervals intervals) t <->
             covered (filter kept intervals) t).
Proof.
  destruct (mergeIntervals_separated intervals) as [[Hs Hk] Hcov].
  split; [|split; [done|split; [|split; [done|done]]]].
  - unfold mergeIntervals. f_equal. f_equal. symmetry. apply filter_kept_id.
    apply Forall_forall. intros i Hi. apply list_elem_of_filter in Hi. tauto.
  - clear Hcov. induction Hs as [|a l Hs IH Hall]; constructor.
    + apply IH. by inversion Hk.
    + inversion Hk as [|? ? Hka Hkl]; subst.
      rewrite Forall_forall in Hall. apply Forall_forall. intros b Hb.
      specialize (Hall b Hb). arith.
Qed.

(** C3 (subtraction correctness).  For available and busy lists that are
    each in increasing order, pairwise disjoint and without empty interval
    (as merged lists are): a minute is covered by the output exactly when it
    is covered by an available interval and by no busy interval; the output
    is in increasing order, pairwise disjoint, and has no empty interval. *)
Theorem subtractIntervals_correct (available busy : list Interval) :
  sortedDisjoint available -> sortedDisjoint busy ->
  (forall t, covered (subtractIntervals available busy) t <->
             (covered available t /\ ~ covered busy t)) /\
  StronglySorted before (subtractIntervals available busy) /\
  Forall kept (subtractIntervals available busy).
Proof.
  intros Ha Hb.
  destruct (subtractIntervals_spec available busy Ha Hb) as (H1 & H2 & H3 & _).
  done.
Qed.

Lemma subtractIntervals_correct_witness :
  let available := [mkInterval 510 780; mkInterval 800 900] in
  let busy := mergeIntervals [mkInterval 0 520; mkInterval 600 630; mkInterval 620 640;
                              mkInterval 770 850] in
  (forall t, covered (subtractIntervals available busy) t <->
             (covered available t /\ ~ covered busy t)) /\
  StronglySorted before (subtractIntervals available busy) /\
  Forall kept (subtractIntervals available busy).
Proof.
  apply subtractIntervals_correct.
  - split; repeat constructor; vm_compute; congruence.
  - apply separated_sortedDisjoint, mergeIntervals_separated.
Defined.

Lemma earliest_cases (busy : list Interval) :
  (Forall (fun b => endMin b <= 510) busy /\ earliestAfterBreakfast busy = None) \/
  (exists pre b post,
     busy = pre ++ b :: post /\ Forall (fun x => endMin x <= 510) pre /\
     510 < endMin b /\ earliestAfterBreakfast busy = Some (startMin b)).
Proof.
  induction busy as [|x busy IH]; simpl; [by left|].
  rewrite morningStart_510. case_decide as Hx.
  - destruct IH as [[Hall Hnone]|(pre & b & post & -> & Hpre & Hb & Hsome)].
    + left. split; [by constructor|done].
    + right. exists (x :: pre), b, post. split; [done|]. split; [by constructor|done].
  - right. exists [], x, busy. split; [done|]. split; [constructor|]. split; [lia|done].
Qed.

(** C4 (morning-window resolver).  Window-open is 510 and the fallback
    cutoff 780.  For any busy list: either no interval ends after 510 and the
    closing time is 780; or there is a first interval [b] ending after 510,
    and the closing time is [b]'s start clamped into [0, 780] -- [b]'s start
    itself when [b] starts before 510.  When the closing time of a day's
    merged busy set is at most 510, the day yields no block and no error. *)
Theorem chooseMorningEnd_correct (busy : list Interval) :
  hmToMinutes BREAKFAST_END = 510 /\ hmToMinutes DEFAULT_END = 780 /\
  ((Forall (fun b => endMin b <= 510) busy /\ chooseMorningEnd busy 780 = 780) \/
   (exists pre b post,
      busy = pre ++ b :: post /\ Forall (fun x => endMin x <= 510) pre /\
      510 < endMin b /\
      chooseMorningEnd busy 780 = clamp (startMin b) 0 780 /\
      0 <= chooseMorningEnd busy 780 <= 780 /\
      (0 <= startMin b < 510 -> chooseMorningEnd busy 780 = startMin b))) /\
  (forall ymd gigsForDay raw,
     busyLoop gigsForDay [] = Ok raw -> mergeIntervals raw = busy ->
     chooseMorningEnd busy (hmToMinutes DEFAULT_END) <= hmToMinutes BREAKFAST_END ->
     dayBlocks ymd gigsForDay = Ok []).
Proof.
  split; [reflexivity|]. split; [reflexivity|]. split.
  - unfold chooseMorningEnd.
    destruct (earliest_cases busy) as [[Hall ->]|(pre & b & post & Hb & Hpre & Hend & ->)].
    + by left.
    + right. exists pre, b, post. unfold clamp. repeat split; try done; lia.
  - intros ymd gigsForDay raw Hraw <- Hclosed.
    unfold dayBlocks. rewrite Hraw. simpl.
    unfold freeOfDay. by rewrite decide_True.
Qed.

Lemma chooseMorningEnd_correct_witness :
  chooseMorningEnd [mkInterval 420 600] 780 = 420 /\
  dayBlocks (lit "2026-11-05")
    [mkGig (Some (lit "2026-11-05")) (Some (lit "08:00 AM - 09:00 AM"))] = Ok [].
Proof.
  destruct (chooseMorningEnd_correct [mkInterval 420 600]) as (_ & _ & Hcase & Hday).
  split.
  - destruct Hcase as [[Hall _]|(pre & b & post & Hb & Hpre & Hend & _ & _ & Hstart)].
    + inversion Hall as [|? ? Hle _]; subst. simpl in Hle. lia.
    + destruct pre as [|x pre].
      * injection Hb as <- <-. apply Hstart. simpl. lia.
      * injection Hb as <- Hb. by destruct pre.
  - apply (Hday _ _ [mkInterval 420 600]); [reflexivity|reflexivity|].
    vm_compute. congruence.
Defined.

(** C5 (block packer).  [scheduleBlocks] runs the packer on the fixed list
    Music, Nibango, YouTube in that order.  For each block: when every free
    interval is too short, the block is skipped and the lower priorities are
    packed into the unchanged sequence; otherwise the block is placed at the
    start of the first interval [it] that is long enough, spanning
    [startMin it, startMin it + minutes), that interval is replaced by
    [startMin it + minutes + 15, endMin it) when non-empty and removed
    otherwise, the intervals before and after it stay as they are, and the
    lower priorities are packed into the updated sequence.  This is the
    packer written from the specification, [packSpec]. *)
Theorem scheduleBlocks_first_fit (ymd : str) :
  BLOCKS = [music; nibango; youtube] /\
  (forall free, scheduleBlocks free ymd = packBlocks BLOCKS free ymd) /\
  (forall free, packBlocks [] free ymd = []) /\
  (forall blk lower free,
     Forall (short (minutes blk)) free ->
     packBlocks (blk :: lower) free ymd = packBlocks lower free ymd) /\
  (forall blk lower pre it post,
     Forall (short (minutes blk)) pre -> ~ short (minutes blk) it ->
     packBlocks (blk :: lower) (pre ++ it :: post) ymd =
     mkScheduled blk ymd (startMin it) (startMin it + minutes blk)
       :: packBlocks lower (pre ++ remainder (minutes blk) it ++ post) ymd) /\
  (forall it needed,
     remainder needed it =
     if decide (startMin it + needed + 15 < endMin it)
     then [mkInterval (startMin it + needed + 15) (endMin it)] else []) /\
  (forall blocks free, packBlocks blocks free ymd = packSpec blocks free ymd).
Proof.
  split; [done|]. split; [done|]. split; [done|].
  split; [intros; by apply packBlocks_skip|].
  split; [intros; by apply packBlocks_place|].
  split; [done|]. intros. apply packBlocks_packSpec.
Qed.

Lemma scheduleBlocks_first_fit_witness :
  let ymd := lit "2026-11-03" in
  packBlocks [nibango; youtube] [mkInterval 510 530; mkInterval 585 640] ymd
  = packBlocks [youtube] [mkInterval 510 530; mkInterval 585 640] ymd /\
  packBlocks [music; nibango] [mkInterval 510 530; mkInterval 540 640; mkInterval 700 780] ymd
  = mkScheduled music ymd 540 570
      :: packBlocks [nibango] [mkInterval 510 530; mkInterval 585 640; mkInterval 700 780] ymd.
Proof.
  destruct (scheduleBlocks_first_fit (lit "2026-11-03"))
    as (_ & _ & _ & Hskip & Hplace & _ & _).
  split.
  - apply (Hskip nibango). repeat constructor; vm_compute; congruence.
  - apply (Hplace music [nibango] [mkInterval 510 530] (mkInterval 540 640)
             [mkInterval 700 780]).
    + repeat constructor; vm_compute; congruence.
    + vm_compute; congruence.
Defined.

(** C6 (scenario A).  When the anchor day is a weekday and no grouped gig is
    dated on it: the day has no gig and no busy interval, its free window is
    [510, 780), that is 08:30 to 13:00, and its blocks are exactly Music
    08:30-09:00, Nibango 09:15-10:45 and YouTube 11:00-12:00; a run that
    completes starts its output with these three, and over distinct processed
    days no other block of the output is on that day. *)
Theorem weekday_without_gigs (H : Host) (data : Data) :
  let ymd := addDaysYmd H (server_date data) 0 in
  isWeekday (weekdayIndexUTC H ymd) = true ->
  (forall g, g ∈ gigs data -> grouped g = true -> date g <> Some ymd) ->
  default [] (groupByDate (gigs data) !! ymd) = [] /\
  busyLoop [] [] = Ok [] /\
  freeOfDay (mergeIntervals []) = Some [mkInterval 510 780] /\
  dayBlocks ymd (default [] (groupByDate (gigs data) !! ymd)) = Ok (freeMorning ymd) /\
  map (fun p => (key (sb_blk p), minutesToHm (sb_startMin p), minutesToHm (sb_endMin p)))
      (freeMorning ymd)
  = [ (lit "music", lit "08:30", lit "09:00");
      (lit "nibango", lit "09:15", lit "10:45");
      (lit "youtube", lit "11:00", lit "12:00") ] /\
  (forall blocks, mainBlocks H data = Ok blocks ->
     exists rest, blocks = freeMorning ymd ++ rest /\
       (NoDup (processedDays H (server_date data)) ->
        Forall (fun p => sb_ymd p <> ymd) rest)).
Proof.
  intros ymd Hwd Hnone.
  assert (Hgigs : default [] (groupByDate (gigs data) !! ymd) = []).
  { rewrite groupByDate_lookup. unfold gigsOn.
    induction (gigs data) as [|g l IH]; [done|].
    rewrite filter_cons_False.
    - apply IH. intros g' Hg'. apply Hnone. by right.
    - intros [Hg Hd]. by apply (Hnone g (list_elem_of_here _ _) Hg). }
  split; [done|]. split; [done|]. split; [reflexivity|].
  assert (Hday : dayBlocks ymd (default [] (groupByDate (gigs data) !! ymd))
                 = Ok (freeMorning ymd)).
  { rewrite Hgigs. reflexivity. }
  split; [done|]. split; [reflexivity|].
  intros blocks Hrun. unfold mainBlocks in Hrun.
  change (seq 0 DAYS) with (0%nat :: seq 1 6) in Hrun.
  rewrite daysLoop_cons in Hrun. unfold dayStep in Hrun.
  change (addDaysYmd H (server_date data) (Z.of_nat 0)) with ymd in Hrun.
  rewrite Hwd, Hday in Hrun.
  change (daysLoop H (server_date data) (groupByDate (gigs data)) (seq 1 6)
            (freeMorning ymd) = Ok blocks) in Hrun.
  apply daysLoop_blocks in Hrun as (rest & -> & Hall & _).
  exists rest. split; [done|].
  unfold processedDays. change (seq 0 DAYS) with (0%nat :: seq 1 6).
  rewrite weekdaysOf_cons.
  change (addDaysYmd H (server_date data) (Z.of_nat 0)) with ymd.
  rewrite Hwd. intros [Hfresh _]%NoDup_cons.
  eapply Forall_impl; [exact Hall|]. intros p [Hin _] Heq. by rewrite Heq in Hin.
Qed.

Lemma weekday_without_gigs_witness :
  let ymd := lit "2026-11-03" in
  default [] (groupByDate (gigs dataTuesday) !! ymd) = [] /\
  busyLoop [] [] = Ok [] /\
  freeOfDay (mergeIntervals []) = Some [mkInterval 510 780] /\
  dayBlocks ymd (default [] (groupByDate (gigs dataTuesday) !! ymd))
  = Ok (freeMorning ymd) /\
  map (fun p => (key (sb_blk p), minutesToHm (sb_startMin p), minutesToHm (sb_endMin p)))
      (freeMorning ymd)
  = [ (lit "music", lit "08:30", lit "09:00");
      (lit "nibango", lit "09:15", lit "10:45");
      (lit "youtube", lit "11:00", lit "12:00") ] /\
  (forall blocks, mainBlocks Calendar.host dataTuesday = Ok blocks ->
     exists rest, blocks = freeMorning ymd ++ rest /\
       (NoDup (processedDays Calendar.host (server_date dataTuesday)) ->
        Forall (fun p => sb_ymd p <> ymd) rest)).
Proof.
  apply (weekday_without_gigs Calendar.host dataTuesday).
  - vm_compute. reflexivity.
  - intros g Hg. simpl in Hg. by apply elem_of_nil in Hg.
Defined.

(** ** Serialization and the clock *)

Lemma stableLines_event d1 d2 ev :
  stableLines (eventLines d1 ev) = stableLines (eventLines d2 ev).
Proof. reflexivity. Qed.

Lemma stableLines_events d1 d2 events :
  stableLines (concat (map (eventLines d1) events))
  = stableLines (concat (map (eventLines d2) events)).
Proof.
  unfold stableLines.
  induction events as [|ev events IH]; [done|].
  cbn [map concat]. rewrite !List.filter_app, IH. f_equal.
Qed.

Lemma stableLines_ics events now1 now2 :
  stableLines (icsLines events now1) = stableLines (icsLines events now2).
Proof.
  unfold icsLines. unfold stableLines at 1 2. rewrite !List.filter_app.
  fold (stableLines (concat (map (eventLines (dtstampOf now1)) events))).
  fold (stableLines (concat (map (eventLines (dtstampOf now2)) events))).
  by rewrite (stableLines_events (dtstampOf now1) (dtstampOf now2)).
Qed.

Lemma icsLines_length events now1 now2 :
  length (icsLines events now1) = length (icsLines events now2).
Proof.
  unfold icsLines. rewrite !length_app. f_equal. f_equal.
  induction events as [|ev events IH]; [done|].
  cbn [map concat]. rewrite !length_app. by rewrite IH.
Qed.

(** C7, as amended.  Two runs on the same document either both fail with
    the same error or both write a calendar built from the same events, so
    with the same stable identifiers in the same order; the two texts have
    the same number of lines and the same lines in the same order apart from
    the [DTSTAMP] lines, and are identical byte for byte when the two clock
    readings give the same timestamp. *)
Theorem rerun_same_except_dtstamp (H : Host) (data : Data) (now1 now2 : str) :
  (forall e, main H data now1 = Throw e <-> main H data now2 = Throw e) /\
  (forall text1, main H data now1 = Ok text1 ->
     exists events,
       text1 = buildIcs events now1 /\
       main H data now2 = Ok (buildIcs events now2) /\
       buildIcs events now1 = join CRLF (icsLines events now1) ++ CRLF /\
       buildIcs events now2 = join CRLF (icsLines events now2) ++ CRLF /\
       length (icsLines events now1) = length (icsLines events now2) /\
       stableLines (icsLines events now1) = stableLines (icsLines events now2) /\
       (dtstampOf now1 = dtstampOf now2 -> main H data now2 = Ok text1)).
Proof.
  unfold main. destruct (mainBlocks H data) as [blocks|e0]; simpl.
  - split; [done|]. intros text1 [= <-].
    exists (map (eventOf H) blocks).
    split; [done|]. split; [done|]. split; [done|]. split; [done|].
    split; [apply icsLines_length|]. split; [apply stableLines_ics|].
    intros Heq. unfold buildIcs, icsLines. by rewrite Heq.
  - split; [done|]. intros text1 [=].
Qed.

Lemma rerun_same_except_dtstamp_witness :
  exists events,
    main Calendar.host dataTuesday clock2 = Ok (buildIcs events clock2) /\
    length (icsLines events clock1) = length (icsLines events clock2) /\
    stableLines (icsLines events clock1) = stableLines (icsLines events clock2).
Proof.
  destruct (rerun_same_except_dtstamp Calendar.host dataTuesday clock1 clock2)
    as [_ Hok].
  assert (Hrun : exists text1, main Calendar.host dataTuesday clock1 = Ok text1)
    by (eexists; vm_compute; reflexivity).
  destruct Hrun as [text1 Hrun].
  destruct (Hok text1 Hrun) as (events & _ & H2 & _ & _ & H5 & H6 & _).
  exists events. split; [exact H2|]. split; [exact H5|exact H6].
Defined.

(** C7, as stated, fails: the same document at two clock readings one second
    apart gives two different texts. *)
Lemma rerun_differs :
  exists text1 text2,
    main Calendar.host dataTuesday clock1 = Ok text1 /\
    main Calendar.host dataTuesday clock2 = Ok text2 /\
    text1 <> text2.
Proof.
  eexists _, _. split; [vm_compute; reflexivity|].
  split; [vm_compute; reflexivity|].
  apply (bool_decide_unpack _). vm_compute. exact I.
Qed.

(** ** The 12-hour parser *)

Lemma dropSpaces_split s :
  exists ws, s = ws ++ dropSpaces s /\ forallb isSpace ws = true.
Proof.
  induction s as [|c s (ws & Hs & Hws)]; simpl.
  - by exists [].
  - destruct (isSpace c) eqn:Hc.
    + exists (c :: ws). simpl. rewrite Hc, Hws. split; [by f_equal|done].
    + by exists [].
Qed.

Lemma matchesLetter_spec upper c :
  matchesLetter upper c = true -> c = upper \/ c = (upper + 32)%N.
Proof.
  unfold matchesLetter. intros [?%N.eqb_eq|?%N.eqb_eq]%orb_true_iff; auto.
Qed.

Lemma matchMeridiem_spec s ap :
  matchMeridiem s = Some ap ->
  exists ws, s = ws ++ ap /\ forallb isSpace ws = true /\ length ap = 2%nat /\
    (toUpperCase ap = lit "AM" \/ toUpperCase ap = lit "PM").
Proof.
  unfold matchMeridiem. destruct (dropSpaces_split s) as (ws & Hs & Hws).
  destruct (dropSpaces s) as [|a [|m [|? ?]]]; try done.
  destruct ((matchesLetter 65 a || matchesLetter 80 a) && matchesLetter 77 m)
    eqn:Hcond; [|done].
  intros [= <-]. exists ws. split; [done|]. split; [done|]. split; [done|].
  apply andb_true_iff in Hcond as [Ha Hm].
  apply matchesLetter_spec in Hm.
  apply orb_true_iff in Ha as [Ha|Ha]; apply matchesLetter_spec in Ha;
    destruct Ha, Hm; subst; vm_compute; auto.
Qed.

Lemma matchAfterHour_spec h s groups :
  matchAfterHour h s = Some groups ->
  exists m ws ap,
    groups = (h, m, ap) /\ s = lit ":" ++ m ++ ws ++ ap /\
    length m = 2%nat /\ forallb isDigit m = true /\
    forallb isSpace ws = true /\ length ap = 2%nat /\
    (toUpperCase ap = lit "AM" \/ toUpperCase ap = lit "PM").
Proof.
  unfold matchAfterHour. destruct s as [|colon [|d1 [|d2 rest]]]; try done.
  destruct ((colon =? 58)%N && isDigit d1 && isDigit d2) eqn:Hcond; [|done].
  apply andb_true_iff in Hcond as [[Hc%N.eqb_eq Hd1]%andb_true_iff Hd2]. subst colon.
  destruct (matchMeridiem rest) as [ap|] eqn:Hap; simpl; [|done].
  intros [= <-].
  apply matchMeridiem_spec in Hap as (ws & -> & Hws & Hlen & Hap).
  exists [d1; d2], ws, ap. simpl. rewrite Hd1, Hd2. by repeat split.
Qed.

Lemma matchTime_spec s h m ap :
  matchTime s = Some (h, m, ap) ->
  exists ws,
    s = h ++ lit ":" ++ m ++ ws ++ ap /\
    (length h = 1 \/ length h = 2)%nat /\ forallb isDigit h = true /\
    length m = 2%nat /\ forallb isDigit m = true /\
    forallb isSpace ws = true /\ length ap = 2%nat /\
    (toUpperCase ap = lit "AM" \/ toUpperCase ap = lit "PM").
Proof.
  unfold matchTime. destruct s as [|h1 rest]; [done|].
  destruct (isDigit h1) eqn:Hh1; [|done].
  assert (Hone : matchAfterHour [h1] rest = Some (h, m, ap) ->
    exists ws, h1 :: rest = h ++ lit ":" ++ m ++ ws ++ ap /\
      (length h = 1 \/ length h = 2)%nat /\ forallb isDigit h = true /\
      length m = 2%nat /\ forallb isDigit m = true /\
      forallb isSpace ws = true /\ length ap = 2%nat /\
      (toUpperCase ap = lit "AM" \/ toUpperCase ap = lit "PM")).
  { intros (m' & ws & ap' & [= -> -> ->] & -> & ? & ? & ? & ? & ?)%matchAfterHour_spec.
    exists ws. simpl. rewrite Hh1. repeat split; auto. }
  destruct rest as [|h2 rest']; [exact Hone|].
  destruct (isDigit h2) eqn:Hh2; [|exact Hone].
  destruct (matchAfterHour [h1; h2] rest') as [groups|] eqn:Htwo; [|exact Hone].
  intros [= ->].
  apply matchAfterHour_spec in Htwo
    as (m' & ws & ap' & [= -> -> ->] & -> & ? & ? & ? & ? & ?).
  exists ws. simpl. rewrite Hh1, Hh2. repeat split; auto.
Qed.

Lemma digit_value c : isDigit c = true -> 0 <= Z.of_N c - 48 <= 9.
Proof.
  unfold isDigit. intros [?%N.leb_le ?%N.leb_le]%andb_true_iff. lia.
Qed.

Lemma digitsToZ_bound s :
  (length s = 1 \/ length s = 2)%nat -> forallb isDigit s = true ->
  0 <= digitsToZ s <= 99.
Proof.
  intros Hlen Hd. destruct s as [|d1 [|d2 [|? ?]]]; simpl in Hlen; try lia.
  - simpl in Hd. apply andb_true_iff in Hd as [Hd1%digit_value _].
    unfold digitsToZ. simpl. lia.
  - simpl in Hd. apply andb_true_iff in Hd as [Hd1%digit_value Hd].
    apply andb_true_iff in Hd as [Hd2%digit_value _].
    unfold digitsToZ. simpl. lia.
Qed.

(** C9, as amended.  Noon ["12:00 PM"] parses to 12:00 (720 minutes) and
    midnight ["12:00 AM"] to 0:00 (0 minutes).  Every accepted string is,
    once trimmed, an hour field of one or two decimal digits (so 0 to 99), a
    colon, a minute field of two decimal digits (0 to 99), optional white
    space, and exactly one marker AM or PM in either letter case; the hour
    field 12 becomes 0 under AM and stays 12 under PM, any other hour field
    stays under AM and gains 12 under PM; and when the hour field is in
    [1, 12] and the minute field in [0, 59] the minute offset is in
    [0, 1440). *)
Theorem parseTime12h_accepts :
  (parseTime12h (lit "12:00 PM") = Ok (mkTime 12 0) /\
   parseTime12h (lit "12:00 AM") = Ok (mkTime 0 0) /\
   hh (mkTime 12 0) * 60 + mm (mkTime 12 0) = 720 /\
   hh (mkTime 0 0) * 60 + mm (mkTime 0 0) = 0) /\
  forall s tm, parseTime12h s = Ok tm ->
    exists h m ws ap,
      trim s = h ++ lit ":" ++ m ++ ws ++ ap /\
      (length h = 1 \/ length h = 2)%nat /\ forallb isDigit h = true /\
      length m = 2%nat /\ forallb isDigit m = true /\
      forallb isSpace ws = true /\ length ap = 2%nat /\
      (toUpperCase ap = lit "AM" \/ toUpperCase ap = lit "PM") /\
      0 <= digitsToZ h <= 99 /\ 0 <= digitsToZ m <= 99 /\
      mm tm = digitsToZ m /\
      hh tm = (if decide (toUpperCase ap = lit "AM")
               then (if decide (digitsToZ h = 12) then 0 else digitsToZ h)
               else (if decide (digitsToZ h = 12) then 12 else digitsToZ h + 12)) /\
      (1 <= digitsToZ h <= 12 -> digitsToZ m <= 59 ->
       0 <= hh tm * 60 + mm tm < 1440).
Proof.
  split; [by vm_compute|].
  intros s tm. unfold parseTime12h.
  destruct (matchTime (trim s)) as [[[h m] ap]|] eqn:Hmatch; [|done].
  apply matchTime_spec in Hmatch as (ws & Hs & Hlh & Hdh & Hlm & Hdm & Hws & Hlap & Hap).
  pose proof (digitsToZ_bound h Hlh Hdh) as Hh.
  pose proof (digitsToZ_bound m (or_intror Hlm) Hdm) as Hm.
  intros Htm. exists h, m, ws, ap.
  repeat (split; [done|]).
  destruct (decide (toUpperCase ap = lit "AM")), (decide (digitsToZ h = 12));
    injection Htm as <-; simpl; repeat split; try done; lia.
Qed.

Lemma parseTime12h_accepts_witness :
  let s := lit " 2:45 pm " in
  let tm := mkTime 14 45 in
  exists h m ws ap,
    trim s = h ++ lit ":" ++ m ++ ws ++ ap /\
    (length h = 1 \/ length h = 2)%nat /\ forallb isDigit h = true /\
    length m = 2%nat /\ forallb isDigit m = true /\
    forallb isSpace ws = true /\ length ap = 2%nat /\
    (toUpperCase ap = lit "AM" \/ toUpperCase ap = lit "PM") /\
    0 <= digitsToZ h <= 99 /\ 0 <= digitsToZ m <= 99 /\
    mm tm = digitsToZ m /\
    hh tm = (if decide (toUpperCase ap = lit "AM")
             then (if decide (digitsToZ h = 12) then 0 else digitsToZ h)
             else (if decide (digitsToZ h = 12) then 12 else digitsToZ h + 12)) /\
    (1 <= digitsToZ h <= 12 -> digitsToZ m <= 59 ->
     0 <= hh tm * 60 + mm tm < 1440).
Proof.
  apply (proj2 parseTime12h_accepts (lit " 2:45 pm ") (mkTime 14 45)).
  vm_compute. reflexivity.
Defined.

(** C9, as stated, fails: ["99:99 PM"] is accepted with hour field 99 and
    minute field 99, and its minute offset is 6759. *)
Lemma parseTime12h_out_of_range :
  parseTime12h (lit "99:99 PM") = Ok (mkTime 111 99) /\
  matchTime (trim (lit "99:99 PM")) = Some (lit "99", lit "99", lit "PM") /\
  digitsToZ (lit "99") = 99 /\
  hh (mkTime 111 99) * 60 + mm (mkTime 111 99) = 6759.
Proof. by vm_compute. Qed.

(** ** Failing parses *)

Lemma busyLoop_throws g gs :
  g ∈ gs -> (exists e, busyOf g = Throw e) ->
  forall busy, exists e, busyLoop gs busy = Throw e.
Proof.
  intros Hin Hbad. induction Hin as [g gs|g g0 gs Hin IH]; intros busy; simpl.
  - destruct Hbad as [e ->]. by exists e.
  - destruct (busyOf g0) as [b|e]; simpl; [by apply IH|by exists e].
Qed.

Lemma truthy_nonempty d : d <> [] -> truthy (Some d) = true.
Proof. by destruct d. Qed.

(** C8, as amended.  When the document has a commitment with a non-empty
    date and a non-empty time string, dated on one of the processed days
    (a Monday-to-Friday day among the seven days from the anchor), whose
    time string does not parse, the run fails as a whole: [main] throws, so
    nothing is written. *)
Theorem malformed_range_aborts (H : Host) (data : Data) (nowIso : str)
    (g : Gig) (d t : str) (e : Error) :
  g ∈ gigs data -> date g = Some d -> time g = Some t -> d <> [] -> t <> [] ->
  d ∈ processedDays H (server_date data) ->
  parseRange t = Throw e ->
  exists e', main H data nowIso = Throw e'.
Proof.
  intros Hg Hd Ht Hdne Htne Hday Hbad.
  destruct (daysLoop_throws H (server_date data) (groupByDate (gigs data))
              (seq 0 DAYS) d [] Hday) as [e' He'].
  - rewrite groupByDate_lookup. apply (busyLoop_throws g).
    + apply list_elem_of_filter. split; [|done]. split; [|done].
      unfold grouped. rewrite Hd, Ht.
      by rewrite !truthy_nonempty.
    + exists e. unfold busyOf. rewrite Ht, Hbad. done.
  - exists e'. unfold main, mainBlocks. by rewrite He'.
Qed.

Lemma malformed_range_aborts_witness :
  exists e', main Calendar.host dataWeekdayBad clock1 = Throw e'.
Proof.
  apply (malformed_range_aborts Calendar.host dataWeekdayBad clock1
           (mkGig (Some (lit "2026-11-04")) (Some (lit "late night")))
           (lit "2026-11-04") (lit "late night") (BadRange (lit "late night"))).
  - apply list_elem_of_here.
  - reflexivity.
  - reflexivity.
  - vm_compute. congruence.
  - vm_compute. congruence.
  - apply (bool_decide_unpack _). vm_compute. exact I.
  - vm_compute. reflexivity.
Defined.

(** C8, as stated, fails: a document whose only commitment is dated on a
    Saturday and has a time string that does not parse is processed to the
    end, and the calendar is written. *)
Lemma weekend_gig_does_not_abort :
  (exists g t e,
     g ∈ gigs dataWeekendBad /\ date g = Some (lit "2026-11-07") /\
     time g = Some t /\ parseRange t = Throw e) /\
  Calendar.weekdayIndexUTC (lit "2026-11-07") = Some 6 /\
  exists text, main Calendar.host dataWeekendBad clock1 = Ok text.
Proof.
  split; [|split].
  - exists (mkGig (Some (lit "2026-11-07")) (Some (lit "late night"))),
      (lit "late night"), (BadRange (lit "late night")).
    split; [apply list_elem_of_here|]. by vm_compute.
  - by vm_compute.
  - eexists. vm_compute. reflexivity.
Qed.

(** ** Gigs outside the processed days *)

Lemma gigsOn_filter (f : Gig -> bool) d gigs :
  (forall g, grouped g = true -> date g = Some d -> f g = true) ->
  gigsOn d (List.filter f gigs) = gigsOn d gigs.
Proof.
  intros Hf. unfold gigsOn. induction gigs as [|g gigs IH]; [done|].
  simpl. destruct (f g) eqn:Hfg.
  - destruct (decide (grouped g = true /\ date g = Some d)).
    + rewrite !filter_cons_True by done. by rewrite IH.
    + rewrite !filter_cons_False by done. exact IH.
  - rewrite IH. rewrite filter_cons_False; [done|].
    intros [Hg Hd]. rewrite (Hf g Hg Hd) in Hfg. done.
Qed.

Lemma mainBlocks_relevant H today gs :
  mainBlocks H (mkData today (List.filter (relevant H today) gs))
  = mainBlocks H (mkData today gs).
Proof.
  unfold mainBlocks. cbn [server_date gigs]. apply daysLoop_ext. intros d Hd.
  rewrite !groupByDate_lookup. apply gigsOn_filter.
  intros g _ Hg. unfold relevant. rewrite Hg. by apply bool_decide_eq_true.
Qed.

(** C10.  The run reads the time strings of the commitments dated on the
    processed days only (the Monday-to-Friday days among the seven days from
    the anchor): its outcome, error or text, is the outcome on the document
    restricted to those commitments; so a commitment dated on no processed
    day, whatever its time string, can be removed without changing the
    outcome, and a document whose commitments are all of that kind is
    processed without error. *)
Theorem irrelevant_gigs_ignored (H : Host) (data : Data) (nowIso : str) :
  main H data nowIso
  = main H (mkData (server_date data)
              (List.filter (relevant H (server_date data)) (gigs data))) nowIso /\
  (forall pre g post,
     gigs data = pre ++ g :: post -> relevant H (server_date data) g = false ->
     main H data nowIso = main H (mkData (server_date data) (pre ++ post)) nowIso) /\
  (Forall (fun g => relevant H (server_date data) g = false) (gigs data) ->
   exists text, main H data nowIso = Ok text).
Proof.
  destruct data as [today gs]. cbn [server_date gigs].
  assert (Hmain : forall gs1 gs2,
            List.filter (relevant H today) gs1 = List.filter (relevant H today) gs2 ->
            main H (mkData today gs1) nowIso = main H (mkData today gs2) nowIso).
  { intros gs1 gs2 Heq. unfold main.
    rewrite <- (mainBlocks_relevant H today gs1), <- (mainBlocks_relevant H today gs2).
    by rewrite Heq. }
  split; [|split].
  - apply Hmain. induction gs as [|g gs IH]; [done|].
    simpl. destruct (relevant H today g) eqn:Hg; simpl; by rewrite ?Hg, <- ?IH.
  - intros pre g post -> Hg. apply Hmain.
    rewrite !List.filter_app. simpl. by rewrite Hg.
  - intros Hall.
    rewrite (Hmain gs []).
    + unfold main, mainBlocks. cbn [server_date gigs].
      destruct (daysLoop H today (groupByDate []) (seq 0 DAYS) []) as [blocks|e] eqn:E.
      * by eexists.
      * exfalso. revert E. generalize (@nil ScheduledBlock).
        induction (seq 0 DAYS) as [|i days IH]; intros acc; [done|].
        rewrite daysLoop_cons. unfold dayStep.
        destruct (isWeekday _); simpl; [|apply IH].
        rewrite groupByDate_lookup. unfold gigsOn. rewrite filter_nil.
        change (dayBlocks (addDaysYmd H today (Z.of_nat i)) [])
          with (@Ok (list ScheduledBlock)
                  (freeMorning (addDaysYmd H today (Z.of_nat i)))).
        simpl. apply IH.
    + simpl. induction Hall as [|g gs Hg _ IH]; [done|].
      simpl. by rewrite Hg.
Qed.

Lemma irrelevant_gigs_ignored_witness :
  main Calendar.host dataWeekendBad clock1
  = main Calendar.host (mkData (lit "2026-11-02") []) clock1 /\
  exists text, main Calendar.host dataWeekendBad clock1 = Ok text.
Proof.
  destruct (irrelevant_gigs_ignored Calendar.host dataWeekendBad clock1)
    as (_ & Hdrop & Hok).
  split.
  - apply (Hdrop [] (mkGig (Some (lit "2026-11-07")) (Some (lit "late night"))) []);
      [reflexivity|]. vm_compute. reflexivity.
  - apply Hok. repeat constructor.
Defined.

(** * Further properties of the code *)

(** ** clamp *)

(** X1.  With [a <= b], [clamp n a b] lies in [a, b], leaves a value of
    [a, b] unchanged, and clamping twice is clamping once. *)
Theorem clamp_range (n a b : Z) :
  a <= b ->
  a <= clamp n a b <= b /\
  (a <= n <= b -> clamp n a b = n) /\
  clamp (clamp n a b) a b = clamp n a b.
Proof. unfold clamp. lia. Qed.

Lemma clamp_range_witness :
  0 <= clamp (-45) 0 1440 <= 1440 /\
  (0 <= -45 <= 1440 -> clamp (-45) 0 1440 = -45) /\
  clamp (clamp (-45) 0 1440) 0 1440 = clamp (-45) 0 1440.
Proof. apply clamp_range. lia. Defined.

(** ** mergeIntervals is a canonical form *)

Lemma separated_cons a l :
  separated (a :: l) <-> kept a /\ Forall (apart a) l /\ separated l.
Proof.
  unfold separated. rewrite StronglySorted_cons, Forall_cons. tauto.
Qed.

Lemma separated_head_min b l t :
  separated (b :: l) -> covered (b :: l) t -> startMin b <= t.
Proof.
  intros (Hk & Hall & _)%separated_cons [Hc|Hc]%covered_cons; [arith|].
  apply covered_elem in Hc as (x & Hx & Hc).
  rewrite Forall_forall in Hall. specialize (Hall x Hx).
  unfold apart in Hall. arith.
Qed.

Lemma separated_head_end a l :
  separated (a :: l) -> ~ covered (a :: l) (endMin a).
Proof.
  intros (Hk & Hall & _)%separated_cons [Hc|Hc]%covered_cons; [arith|].
  apply covered_elem in Hc as (x & Hx & Hc).
  rewrite Forall_forall in Hall. specialize (Hall x Hx).
  unfold apart in Hall. arith.
Qed.

Lemma separated_head_tail a l t :
  separated (a :: l) -> covers a t -> ~ covered l t.
Proof.
  intros (Hk & Hall & _)%separated_cons Ha (x & Hx & Hc)%covered_elem.
  rewrite Forall_forall in Hall. specialize (Hall x Hx).
  unfold apart in Hall. arith.
Qed.

(** Two merged lists that cover the same minutes are the same list. *)
Lemma separated_unique l1 : forall l2,
  separated l1 -> separated l2 ->
  (forall t, covered l1 t <-> covered l2 t) -> l1 = l2.
Proof.
  induction l1 as [|a l1 IH]; intros [|b l2] H1 H2 Hcov.
  - done.
  - exfalso. apply separated_cons in H2 as (Hk & _ & _).
    apply (covered_nil (startMin b)), Hcov, covered_cons. left. arith.
  - exfalso. apply separated_cons in H1 as (Hk & _ & _).
    apply (covered_nil (startMin a)), Hcov, covered_cons. left. arith.
  - pose proof H1 as (Hka & _ & H1')%separated_cons.
    pose proof H2 as (Hkb & _ & H2')%separated_cons.
    assert (Hstart : startMin a = startMin b).
    { assert (startMin b <= startMin a).
      { apply (separated_head_min b l2); [done|].
        apply Hcov, covered_cons. left. arith. }
      assert (startMin a <= startMin b).
      { apply (separated_head_min a l1); [done|].
        apply Hcov, covered_cons. left. arith. }
      lia. }
    assert (Hend : endMin a = endMin b).
    { destruct (Z.lt_trichotomy (endMin a) (endMin b)) as [Hlt|[Heq|Hgt]]; [|done|].
      - exfalso. apply (separated_head_end a l1 H1).
        apply Hcov, covered_cons. left. arith.
      - exfalso. apply (separated_head_end b l2 H2).
        apply Hcov, covered_cons. left. arith. }
    assert (a = b) as <- by (destruct a, b; simpl in *; congruence).
    f_equal. apply IH; [done|done|]. intros t. split; intros Ht.
    + assert (Hc : covered (a :: l2) t) by (apply Hcov, covered_cons; by right).
      apply covered_cons in Hc as [Hc|Hc]; [|done].
      by destruct (separated_head_tail a l1 t H1 Hc).
    + assert (Hc : covered (a :: l1) t) by (apply Hcov, covered_cons; by right).
      apply covered_cons in Hc as [Hc|Hc]; [|done].
      by destruct (separated_head_tail a l2 t H2 Hc).
Qed.

Lemma mergeIntervals_same_cover (l1 l2 : list Interval) :
  (forall t, covered l1 t <-> covered l2 t) ->
  mergeIntervals l1 = mergeIntervals l2.
Proof.
  intros Hcov.
  destruct (mergeIntervals_separated l1) as [Hs1 Hc1].
  destruct (mergeIntervals_separated l2) as [Hs2 Hc2].
  apply separated_unique; [done|done|].
  intros t. by rewrite Hc1, Hc2, !covered_filter_kept.
Qed.


(** X2.  The output of [mergeIntervals] depends only on the set of minutes
    its input covers: two interval lists covering the same minutes, in
    whatever order and however split, merge to the same list. *)
Theorem mergeIntervals_canonical (l1 l2 : list Interval) :
  (forall t, covered l1 t <-> covered l2 t) ->
  mergeIntervals l1 = mergeIntervals l2.
Proof. apply mergeIntervals_same_cover. Qed.

Lemma mergeIntervals_canonical_witness :
  mergeIntervals [mkInterval 600 700; mkInterval 100 300]
  = mergeIntervals [mkInterval 100 200; mkInterval 650 700; mkInterval 9 9;
                    mkInterval 200 300; mkInterval 600 650].
Proof.
  apply mergeIntervals_canonical. intros t.
  rewrite !covered_cons, !covered_nil. unfold covers. simpl. lia.
Defined.

(** X3.  Merging is idempotent, and a list that is already merged
    (non-empty intervals, each ending strictly before the next starts) is
    returned unchanged. *)
Theorem mergeIntervals_idempotent (l : list Interval) :
  mergeIntervals (mergeIntervals l) = mergeIntervals l /\
  (separated l -> mergeIntervals l = l).
Proof.
  assert (Hfix : forall k, separated k -> mergeIntervals k = k).
  { intros k Hk. destruct (mergeIntervals_separated k) as [Hs Hc].
    apply separated_unique; [done|done|].
    intros t. by rewrite Hc, covered_filter_kept. }
  split; [|apply Hfix].
  apply Hfix, mergeIntervals_separated.
Qed.

(** ** subtractIntervals on any input *)

Lemma interval_eta a : mkInterval (startMin a) (endMin a) = a.
Proof. by destruct a. Qed.

(** X4.  With nothing busy the available intervals come back unchanged,
    except that empty and inverted ones are left out; with nothing available
    the result is empty. *)
Theorem subtractIntervals_empty (available busy : list Interval) :
  subtractIntervals available [] = filter kept available /\
  subtractIntervals [] busy = [].
Proof.
  split; [|done]. unfold subtractIntervals. rewrite subtract_fold. simpl.
  induction available as [|a available IH]; [done|].
  cbn [map concat]. rewrite IH. unfold subtractStep. simpl.
  destruct (decide (kept a)) as [Hk|Hk].
  - rewrite filter_cons_True by done. unfold kept in Hk.
    rewrite decide_True by done. simpl. by rewrite interval_eta.
  - rewrite filter_cons_False by done. unfold kept in Hk.
    by rewrite decide_False.
Qed.

Lemma subtractLoop_pieces a busy : forall c,
  Forall (fun x => kept x /\ c <= startMin x /\ endMin x <= endMin a)
         (finish a (subtractLoop a c [] busy)).
Proof.
  induction busy as [|b busy IH]; intros c; simpl.
  - unfold finish. simpl. case_decide; repeat constructor; arith.
  - destruct (decide (endMin b <= c)); [apply IH|].
    destruct (decide (endMin a <= startMin b)).
    { unfold finish. simpl. case_decide; repeat constructor; arith. }
    destruct (decide (endMin a <= Z.max c (endMin b))).
    { unfold finish. simpl. rewrite decide_False by lia.
      case_decide; repeat constructor; arith. }
    specialize (IH (Z.max c (endMin b))).
    assert (Hrest : Forall (fun x => kept x /\ c <= startMin x /\ endMin x <= endMin a)
                      (finish a (subtractLoop a (Z.max c (endMin b)) [] busy))).
    { eapply Forall_impl; [exact IH|]. intros x Hx. arith. }
    case_decide; [|done].
    rewrite finish_out. apply Forall_app. split; [|done].
    repeat constructor; arith.
Qed.

(** X5.  Whatever the two lists are (sorted or not, overlapping or not),
    every interval that [subtractIntervals] returns is non-empty and lies
    inside one of the available intervals; so the filter that [main] applies
    to the result removes nothing. *)
Theorem subtractIntervals_pieces (available busy : list Interval) :
  Forall kept (subtractIntervals available busy) /\
  Forall (fun x => Exists (within x) available) (subtractIntervals available busy) /\
  filter kept (subtractIntervals available busy) = subtractIntervals available busy.
Proof.
  assert (H : Forall (fun x => kept x /\ Exists (within x) available)
                (subtractIntervals available busy)).
  { unfold subtractIntervals. rewrite subtract_fold. simpl.
    induction available as [|a available IH]; [constructor|].
    cbn [map concat]. apply Forall_app. split.
    - rewrite subtractStep_finish.
      eapply Forall_impl; [apply subtractLoop_pieces|].
      intros x (? & ? & ?). split; [done|]. left. arith.
    - eapply Forall_impl; [exact IH|]. intros x [? ?]. split; [done|]. by right. }
  assert (Hk : Forall kept (subtractIntervals available busy)).
  { eapply Forall_impl; [exact H|]. by intros x [? ?]. }
  split; [done|]. split; [|by apply filter_kept_id].
  eapply Forall_impl; [exact H|]. by intros x [? ?].
Qed.

(** ** Busy intervals of a day *)

Lemma busyLoop_inDay gs : forall acc busy,
  busyLoop gs acc = Ok busy -> Forall inDay acc -> Forall inDay busy.
Proof.
  induction gs as [|g gs IH]; intros acc busy; simpl.
  - by intros [= <-].
  - unfold busyOf. destruct (time g) as [t|]; simpl; [|done].
    destruct (parseRange t) as [r|e]; simpl; [|done].
    intros Hrun Hacc. apply (IH _ _ Hrun).
    apply Forall_app. split; [done|].
    repeat constructor; unfold clamp; simpl; lia.
Qed.

(** X6.  However the time strings of a day's gigs read (hours up to 99 are
    accepted), every busy interval of the day, before and after merging,
    has both ends within [0, 1440]. *)
Theorem busy_within_day (gigsForDay : list Gig) (busy : list Interval) :
  busyLoop gigsForDay [] = Ok busy ->
  Forall inDay busy /\ Forall inDay (mergeIntervals busy).
Proof.
  intros Hrun.
  assert (Hraw : Forall inDay busy) by (by apply (busyLoop_inDay _ _ _ Hrun)).
  split; [done|].
  destruct (mergeIntervals_separated busy) as [[_ Hk] Hcov].
  rewrite Forall_forall in Hraw, Hk. apply Forall_forall. intros m Hm.
  specialize (Hk m Hm).
  assert (Hin : forall t, covers m t -> 0 <= t < 1440).
  { intros t Ht.
    assert (Hc : covered (mergeIntervals busy) t) by (apply covered_elem; eauto).
    apply Hcov in Hc. rewrite covered_filter_kept in Hc.
    apply covered_elem in Hc as (x & Hx & Hc).
    specialize (Hraw x Hx). unfold inDay in Hraw. arith. }
  pose proof (Hin (startMin m)) as H1. pose proof (Hin (endMin m - 1)) as H2.
  unfold inDay. arith.
Qed.

Lemma busy_within_day_witness :
  Forall inDay [mkInterval 1440 1440; mkInterval 420 600] /\
  Forall inDay (mergeIntervals [mkInterval 1440 1440; mkInterval 420 600]).
Proof.
  apply (busy_within_day
           [mkGig None (Some (lit "99:99 PM - 99:00 PM"));
            mkGig None (Some (lit "8:00am-9:00AM"))]).
  vm_compute. reflexivity.
Defined.

(** ** The free window of a day *)

Lemma subtractLoop_untouched a busy : forall c,
  Forall (fun b => endMin b <= c \/ endMin a <= startMin b) busy ->
  subtractLoop a c [] busy = (c, []).
Proof.
  induction busy as [|b busy IH]; intros c Hall; simpl; [done|].
  inversion Hall as [|? ? Hb Hrest]; subst.
  destruct (decide (endMin b <= c)); [by apply IH|].
  rewrite decide_True by lia. done.
Qed.

Lemma free_window_props (busy free : list Interval) :
  freeOfDay (mergeIntervals busy) = Some free ->
  free = [mkInterval 510 (chooseMorningEnd (mergeIntervals busy) 780)] /\
  510 < chooseMorningEnd (mergeIntervals busy) 780 <= 780 /\
  forall t, 510 <= t < chooseMorningEnd (mergeIntervals busy) 780 ->
            ~ covered busy t.
Proof.
  unfold freeOfDay. rewrite morningStart_510, defaultEnd_780.
  case_decide as Hwin; [done|]. intros [= <-].
  destruct (mergeIntervals_separated busy) as [[Hs Hk] Hcov].
  set (merged := mergeIntervals busy) in *.
  assert (Hclear : Forall (fun b => endMin b <= 510 \/
                      chooseMorningEnd merged 780 <= startMin b) merged
                   /\ chooseMorningEnd merged 780 <= 780).
  { revert Hwin. unfold chooseMorningEnd.
    destruct (earliest_cases merged)
      as [[Hall ->]|(pre & b & post & Hm & Hpre & Hend & ->)]; intros Hwin.
    - split; [|lia]. eapply Forall_impl; [exact Hall|]. intros; by left.
    - unfold clamp in *. split; [|lia].
      assert (Hkb : kept b).
      { rewrite Forall_forall in Hk. apply Hk. rewrite Hm.
        apply elem_of_app. right. by left. }
      unfold kept in Hkb. rewrite Hm in Hs |- *.
      apply StronglySorted_app in Hs as (_ & _ & Hs).
      apply StronglySorted_cons in Hs as [Hpost _].
      apply Forall_app. split; [|constructor].
      + eapply Forall_impl; [exact Hpre|]. intros; by left.
      + right. lia.
      + eapply Forall_impl; [exact Hpost|]. intros x Hx. right.
        unfold apart in Hx. lia. }
  destruct Hclear as [Hclear Hle].
  split; [|split; [lia|]].
  - unfold subtractIntervals. simpl. rewrite subtractStep_finish. simpl.
    rewrite subtractLoop_untouched by done.
    unfold finish. simpl. rewrite decide_True by lia.
    simpl. rewrite filter_cons_True by (unfold kept; simpl; lia). done.
  - intros t Ht Hc. rewrite <- covered_filter_kept in Hc. apply Hcov in Hc.
    apply covered_elem in Hc as (x & Hx & Hc).
    rewrite Forall_forall in Hclear. specialize (Hclear x Hx). arith.
Qed.


(** X7.  When a day is not abandoned, its free list is the single interval
    from 510 (08:30) to the closing time: no busy interval of the day reaches
    into that window, so the subtraction in [main] takes nothing away. *)
Theorem free_window_single (busy free : list Interval) :
  freeOfDay (mergeIntervals busy) = Some free ->
  free = [mkInterval 510 (chooseMorningEnd (mergeIntervals busy) 780)] /\
  510 < chooseMorningEnd (mergeIntervals busy) 780 <= 780 /\
  forall t, 510 <= t < chooseMorningEnd (mergeIntervals busy) 780 ->
            ~ covered busy t.
Proof. apply free_window_props. Qed.

Lemma free_window_single_witness :
  [mkInterval 510 540]
  = [mkInterval 510 (chooseMorningEnd
                       (mergeIntervals [mkInterval 300 480; mkInterval 540 900]) 780)] /\
  510 < chooseMorningEnd (mergeIntervals [mkInterval 300 480; mkInterval 540 900]) 780
      <= 780 /\
  forall t, 510 <= t < chooseMorningEnd
                         (mergeIntervals [mkInterval 300 480; mkInterval 540 900]) 780 ->
            ~ covered [mkInterval 300 480; mkInterval 540 900] t.
Proof.
  apply (free_window_single [mkInterval 300 480; mkInterval 540 900]).
  vm_compute. reflexivity.
Defined.

Lemma scheduleBlocks_single e ymd :
  510 < e ->
  scheduleBlocks [mkInterval 510 e] ymd =
  if decide (e < 540) then []
  else if decide (e < 615) then [mkScheduled music ymd 510 540]
  else if decide (e < 645) then
    [mkScheduled music ymd 510 540; mkScheduled youtube ymd 555 615]
  else if decide (e < 720) then
    [mkScheduled music ymd 510 540; mkScheduled nibango ymd 555 645]
  else freeMorning ymd.
Proof.
  intros He. unfold scheduleBlocks, packBlocks, BLOCKS, freeMorning.
  cbn [fold_left]. unfold placeStep, findFit, BREAK_MIN. simpl.
  repeat (case_decide; simpl; try lia); reflexivity.
Qed.

Lemma dayBlocks_table (ymd : str) (gigsForDay : list Gig) (busy : list Interval) :
  busyLoop gigsForDay [] = Ok busy ->
  dayBlocks ymd gigsForDay =
  Ok (let e := chooseMorningEnd (mergeIntervals busy) 780 in
      if decide (e < 540) then []
      else if decide (e < 615) then [mkScheduled music ymd 510 540]
      else if decide (e < 645) then
        [mkScheduled music ymd 510 540; mkScheduled youtube ymd 555 615]
      else if decide (e < 720) then
        [mkScheduled music ymd 510 540; mkScheduled nibango ymd 555 645]
      else freeMorning ymd).
Proof.
  intros Hbusy. unfold dayBlocks. rewrite Hbusy. simpl.
  destruct (freeOfDay (mergeIntervals busy)) as [free|] eqn:Hfree.
  - apply free_window_props in Hfree as (-> & He & _).
    cbv zeta. f_equal. apply scheduleBlocks_single. lia.
  - unfold freeOfDay in Hfree. rewrite morningStart_510, defaultEnd_780 in Hfree.
    case_decide as Hwin; [|done]. cbv zeta. by rewrite decide_True by lia.
Qed.

(** X8.  The blocks of a day are decided by the closing time [e] of its
    morning alone: none when [e < 540]; Music 08:30-09:00 when
    [540 <= e < 615]; Music and then YouTube 09:15-10:15 when
    [615 <= e < 645]; Music and Nibango 09:15-10:45 when [645 <= e < 720];
    all three when [e >= 720].  So a longer morning can drop YouTube in
    favour of Nibango, and consecutive blocks are always 15 minutes apart. *)
Theorem dayBlocks_by_closing (ymd : str) (gigsForDay : list Gig) (busy : list Interval) :
  busyLoop gigsForDay [] = Ok busy ->
  dayBlocks ymd gigsForDay =
  Ok (let e := chooseMorningEnd (mergeIntervals busy) 780 in
      if decide (e < 540) then []
      else if decide (e < 615) then [mkScheduled music ymd 510 540]
      else if decide (e < 645) then
        [mkScheduled music ymd 510 540; mkScheduled youtube ymd 555 615]
      else if decide (e < 720) then
        [mkScheduled music ymd 510 540; mkScheduled nibango ymd 555 645]
      else freeMorning ymd).
Proof. apply dayBlocks_table. Qed.

Lemma dayBlocks_by_closing_witness :
  dayBlocks (lit "2026-11-03")
    [mkGig None (Some (lit "11:20 AM - 02:00 PM"));
     mkGig None (Some (lit "1:00 PM - 3:00 PM"))]
  = Ok (let e := chooseMorningEnd
                   (mergeIntervals [mkInterval 620 900; mkInterval 720 960]) 780 in
        if decide (e < 540) then []
        else if decide (e < 615) then [mkScheduled music (lit "2026-11-03") 510 540]
        else if decide (e < 645) then
          [mkScheduled music (lit "2026-11-03") 510 540;
           mkScheduled youtube (lit "2026-11-03") 555 615]
        else if decide (e < 720) then
          [mkScheduled music (lit "2026-11-03") 510 540;
           mkScheduled nibango (lit "2026-11-03") 555 645]
        else freeMorning (lit "2026-11-03")).
Proof.
  apply (dayBlocks_by_closing (lit "2026-11-03")
           [mkGig None (Some (lit "11:20 AM - 02:00 PM"));
            mkGig None (Some (lit "1:00 PM - 3:00 PM"))]
           [mkInterval 620 900; mkInterval 720 960]).
  vm_compute. reflexivity.
Defined.

(** ** Every block of a run *)

Lemma dayBlocks_facts ymd gigsForDay P :
  dayBlocks ymd gigsForDay = Ok P ->
  (length P <= 3)%nat /\
  Forall (fun p => sb_blk p ∈ BLOCKS /\ sb_ymd p = ymd /\
                   510 <= sb_startMin p /\
                   sb_endMin p = sb_startMin p + minutes (sb_blk p) /\
                   sb_endMin p <= 780) P.
Proof.
  intros HP. destruct (dayBlocks_inv _ _ _ HP) as (busy & Hbusy & _).
  rewrite (dayBlocks_table ymd gigsForDay busy Hbusy) in HP.
  injection HP as <-. cbv zeta. unfold BLOCKS, freeMorning.
  repeat case_decide; (split; [simpl; lia|]);
    repeat constructor; simpl; try lia; set_solver.
Qed.

Section RunFacts.
Context (H : Host) (today : str) (byDate : gmap str (list Gig)).

Lemma weekdaysOf_length days :
  (length (weekdaysOf H today days) <= length days)%nat.
Proof.
  unfold weekdaysOf. etransitivity; [apply List.filter_length_le|].
  by rewrite length_map.
Qed.

Lemma daysLoop_length days : forall acc blocks,
  daysLoop H today byDate days acc = Ok blocks ->
  (length blocks <= length acc + 3 * length (weekdaysOf H today days))%nat.
Proof.
  induction days as [|i days IH]; intros acc blocks.
  - simpl. intros [= <-]. lia.
  - rewrite daysLoop_cons, weekdaysOf_cons. unfold dayStep.
    destruct (isWeekday _); simpl.
    + destruct (dayBlocks _ _) as [P|e] eqn:HP; simpl; [|done].
      intros Hrun%IH. apply dayBlocks_facts in HP as [HP _].
      rewrite length_app in Hrun. lia.
    + apply IH.
Qed.

End RunFacts.

(** X9.  In a run that completes, every scheduled block is one of the three
    templates, starts at or after 510 (08:30), lasts exactly its template's
    minutes and ends by 780 (13:00): nothing is ever placed in the
    afternoon.  A day gets at most three blocks, so the run has at most
    three per processed day and at most 21 in all. *)
Theorem blocks_in_morning (H : Host) (data : Data) (blocks : list ScheduledBlock) :
  mainBlocks H data = Ok blocks ->
  Forall (fun p => sb_blk p ∈ BLOCKS /\
                   sb_ymd p ∈ processedDays H (server_date data) /\
                   510 <= sb_startMin p /\
                   sb_endMin p = sb_startMin p + minutes (sb_blk p) /\
                   sb_endMin p <= 780) blocks /\
  (length blocks <= 3 * length (processedDays H (server_date data)))%nat /\
  (length blocks <= 21)%nat.
Proof.
  intros Hrun. unfold mainBlocks in Hrun.
  pose proof (daysLoop_length _ _ _ _ _ _ Hrun) as Hlen.
  pose proof (weekdaysOf_length H (server_date data) (seq 0 DAYS)) as Hdays.
  rewrite length_seq in Hdays. unfold DAYS in Hdays at 2.
  fold (processedDays H (server_date data)) in Hlen, Hdays.
  change (length (@nil ScheduledBlock)) with 0%nat in Hlen.
  apply daysLoop_blocks in Hrun as (news & -> & Hall & _).
  rewrite app_nil_l in *.
  split; [|split; lia].
  eapply Forall_impl; [exact Hall|]. intros p [Hin (P & HP & Hp)].
  apply dayBlocks_facts in HP as [_ HP]. rewrite Forall_forall in HP.
  destruct (HP p Hp) as (? & ? & ? & ? & ?). done.
Qed.

Lemma blocks_in_morning_witness :
  Forall (fun p => sb_blk p ∈ BLOCKS /\
                   sb_ymd p ∈ processedDays Calendar.host (server_date dataGigs) /\
                   510 <= sb_startMin p /\
                   sb_endMin p = sb_startMin p + minutes (sb_blk p) /\
                   sb_endMin p <= 780) blocksGigs /\
  (length blocksGigs
   <= 3 * length (processedDays Calendar.host (server_date dataGigs)))%nat /\
  (length blocksGigs <= 21)%nat.
Proof.
  apply (blocks_in_morning Calendar.host dataGigs blocksGigs).
  vm_compute. reflexivity.
Defined.

(** ** Clock strings *)

Lemma clockOk_day n : 0 <= n < 1440 -> clockOk n = true.
Proof.
  intros Hn.
  assert (Hall : forallb clockOk (seqZ 0 1440) = true) by (by vm_compute).
  rewrite forallb_forall in Hall. apply Hall.
  apply list_elem_of_In, elem_of_seqZ. lia.
Qed.

Lemma clock_shape n :
  0 <= n < 1440 ->
  exists a b d e,
    minutesToHm n = [a; b; 58%N; d; e] /\
    isDigit a = true /\ isDigit b = true /\ isDigit d = true /\ isDigit e = true /\
    hmToMinutes [a; b; 58%N; d; e] = n.
Proof.
  intros Hn%clockOk_day. unfold clockOk in Hn.
  destruct (minutesToHm n) as [|a [|b [|c [|d [|e [|? ?]]]]]]; try done.
  apply andb_true_iff in Hn as [Hn Hrt%Z.eqb_eq].
  apply andb_true_iff in Hn as [Hn He].
  apply andb_true_iff in Hn as [Hn Hd].
  apply andb_true_iff in Hn as [Hn Hc%N.eqb_eq].
  apply andb_true_iff in Hn as [Ha Hb]. subst c.
  by exists a, b, d, e.
Qed.

Lemma digit_not_colon x : isDigit x = true -> (x =? 58)%N = false.
Proof.
  unfold isDigit. intros [?%N.leb_le ?%N.leb_le]%andb_true_iff.
  apply N.eqb_neq. lia.
Qed.

(** X10.  For a minute of the day, [minutesToHm] gives a five-unit string
    "HH:MM" of decimal digits around a colon, and [hmToMinutes] reads it
    back to the same minute; so different minutes of the day have different
    clock strings. *)
Theorem minutesToHm_roundtrip (n : Z) :
  0 <= n < 1440 ->
  hmToMinutes (minutesToHm n) = n /\
  exists a b d e,
    minutesToHm n = [a; b; 58%N; d; e] /\
    isDigit a = true /\ isDigit b = true /\ isDigit d = true /\ isDigit e = true.
Proof.
  intros (a & b & d & e & Hs & Ha & Hb & Hd & He & Hrt)%clock_shape.
  split; [by rewrite Hs|]. by exists a, b, d, e.
Qed.

Lemma minutesToHm_roundtrip_witness :
  hmToMinutes (minutesToHm 555) = 555 /\
  exists a b d e,
    minutesToHm 555 = [a; b; 58%N; d; e] /\
    isDigit a = true /\ isDigit b = true /\ isDigit d = true /\ isDigit e = true.
Proof. apply minutesToHm_roundtrip. lia. Defined.

(** The start time as it stands in a UID decides the minute. *)
Lemma startHm_inj n1 n2 :
  0 <= n1 < 1440 -> 0 <= n2 < 1440 ->
  removeFirst 58 (minutesToHm n1) = removeFirst 58 (minutesToHm n2) ->
  n1 = n2.
Proof.
  intros (a1 & b1 & d1 & e1 & -> & Ha1 & Hb1 & _ & _ & <-)%clock_shape.
  intros (a2 & b2 & d2 & e2 & -> & Ha2 & Hb2 & _ & _ & <-)%clock_shape.
  simpl. rewrite !digit_not_colon by done. simpl. by intros [= -> -> -> ->].
Qed.

Lemma startHm_length n :
  0 <= n < 1440 -> length (removeFirst 58 (minutesToHm n)) = 4%nat.
Proof.
  intros (a1 & b1 & d1 & e1 & -> & Ha1 & Hb1 & _)%clock_shape.
  simpl. by rewrite !digit_not_colon by done.
Qed.

(** ** Event identifiers *)

Lemma uidForEvent_inj (b1 b2 : Block) (ymd1 ymd2 : str) (n1 n2 : Z) :
  b1 ∈ BLOCKS -> b2 ∈ BLOCKS -> 0 <= n1 < 1440 -> 0 <= n2 < 1440 ->
  uidForEvent (key b1) ymd1 (minutesToHm n1)
  = uidForEvent (key b2) ymd2 (minutesToHm n2) ->
  b1 = b2 /\ ymd1 = ymd2 /\ n1 = n2.
Proof.
  intros Hb1 Hb2 Hn1 Hn2. unfold uidForEvent.
  intros Heq%app_inv_head%app_inv_head%app_inv_head.
  assert (Hlen : length (lit "-" ++ removeFirst 58 (minutesToHm n1) ++ lit "@javibeat")
               = length (lit "-" ++ removeFirst 58 (minutesToHm n2) ++ lit "@javibeat")).
  { rewrite !length_app, !startHm_length by done. done. }
  assert (Hsame : ymd1 ++ lit "-" ++ removeFirst 58 (minutesToHm n1) ++ lit "@javibeat"
                = ymd2 ++ lit "-" ++ removeFirst 58 (minutesToHm n2) ++ lit "@javibeat"
                -> ymd1 = ymd2 /\ n1 = n2).
  { intros [-> Htail]%app_inj_2; [|done]. split; [done|].
    apply app_inv_head, app_inv_tail in Htail. by apply startHm_inj. }
  unfold BLOCKS in Hb1, Hb2.
  apply elem_of_cons in Hb1 as [->|Hb1]; [|apply elem_of_cons in Hb1 as [->|Hb1];
    [|apply list_elem_of_singleton in Hb1 as ->]];
  (apply elem_of_cons in Hb2 as [->|Hb2]; [|apply elem_of_cons in Hb2 as [->|Hb2];
    [|apply list_elem_of_singleton in Hb2 as ->]]);
  simpl in Heq; try discriminate Heq;
  (split; [done|]); apply Hsame; by simplify_eq.
Qed.

(** X11.  In a run that completes over distinct processed days, no two
    events of the output carry the same UID. *)
Theorem uids_distinct (H : Host) (data : Data) (blocks : list ScheduledBlock) :
  NoDup (processedDays H (server_date data)) ->
  mainBlocks H data = Ok blocks ->
  forall i j p q, i <> j -> blocks !! i = Some p -> blocks !! j = Some q ->
                  uid (eventOf H p) <> uid (eventOf H q).
Proof.
  intros Hnd Hrun. unfold mainBlocks in Hrun.
  apply daysLoop_blocks in Hrun as (news & -> & Hall & Hcompat).
  specialize (Hcompat Hnd). rewrite app_nil_l.
  assert (Hfacts : forall p, p ∈ news ->
            sb_blk p ∈ BLOCKS /\ 510 <= sb_startMin p /\
            sb_endMin p = sb_startMin p + minutes (sb_blk p) /\ sb_endMin p <= 780).
  { intros p Hp. rewrite Forall_forall in Hall.
    destruct (Hall p Hp) as [_ (P & HP & HpP)].
    apply dayBlocks_facts in HP as [_ HP]. rewrite Forall_forall in HP.
    destruct (HP p HpP) as (? & ? & ? & ? & ?). done. }
  assert (Hpos : forall b, b ∈ BLOCKS -> 0 < minutes b).
  { pose proof BLOCKS_positive as Hb. rewrite Forall_forall in Hb. exact Hb. }
  assert (Hpair : forall i j p q, (i < j)%nat -> news !! i = Some p ->
            news !! j = Some q -> uid (eventOf H p) <> uid (eventOf H q)).
  { intros i j p q Hij Hi Hj Heq.
    pose proof (StronglySorted_lookup _ _ Hcompat i j p q Hij Hi Hj) as Hc.
    destruct (Hfacts p) as (Hbp & Hsp & Hep & Hlp); [by eapply list_elem_of_lookup_2|].
    destruct (Hfacts q) as (Hbq & Hsq & Heq' & Hlq); [by eapply list_elem_of_lookup_2|].
    pose proof (Hpos _ Hbp). pose proof (Hpos _ Hbq).
    unfold eventOf in Heq. simpl in Heq.
    apply uidForEvent_inj in Heq as (_ & Hymd & Hstart); [|done|done|lia|lia].
    apply (Hc Hymd (sb_startMin p)). unfold slot. lia. }
  intros i j p q Hij Hi Hj.
  destruct (decide (i < j)%nat).
  - by eapply Hpair.
  - intros Heq. eapply (Hpair j i q p); [lia|done|done|by symmetry].
Qed.

Lemma uids_distinct_witness :
  mainBlocks Calendar.host dataGigs = Ok blocksGigs /\
  forall i j p q, i <> j -> blocksGigs !! i = Some p -> blocksGigs !! j = Some q ->
                  uid (eventOf Calendar.host p) <> uid (eventOf Calendar.host q).
Proof.
  split; [vm_compute; reflexivity|].
  apply (uids_distinct Calendar.host dataGigs blocksGigs).
  - apply (bool_decide_unpack _). vm_compute. exact I.
  - vm_compute. reflexivity.
Defined.

(** ** The gigs of a day *)

Lemma busyLoop_acc gs : forall acc,
  busyLoop gs acc = busyLoop gs [] ≫= fun bs => Ok (acc ++ bs).
Proof.
  induction gs as [|g gs IH]; intros acc; simpl.
  - by rewrite app_nil_r.
  - destruct (busyOf g) as [b|e]; simpl; [|done].
    rewrite (IH (acc ++ [b])), (IH [b]).
    destruct (busyLoop gs []) as [bs|e]; simpl; [|done].
    by rewrite <- app_assoc.
Qed.

Lemma busyLoop_app gs1 gs2 :
  busyLoop (gs1 ++ gs2) [] =
  busyLoop gs1 [] ≫= fun b1 => busyLoop gs2 [] ≫= fun b2 => Ok (b1 ++ b2).
Proof.
  induction gs1 as [|g gs1 IH]; simpl.
  - destruct (busyLoop gs2 []); done.
  - destruct (busyOf g) as [b|e]; simpl; [|done].
    rewrite (busyLoop_acc (gs1 ++ gs2)), (busyLoop_acc gs1), IH.
    destruct (busyLoop gs1 []) as [b1|e]; simpl; [|done].
    destruct (busyLoop gs2 []) as [b2|e]; simpl; done.
Qed.

Lemma busyLoop_Ok gs : forall busy,
  busyLoop gs [] = Ok busy <-> Forall2 (fun g b => busyOf g = Ok b) gs busy.
Proof.
  induction gs as [|g gs IH]; intros busy; simpl.
  - split; [intros [= <-]; constructor|by intros ->%Forall2_nil_inv_l].
  - split.
    + destruct (busyOf g) as [b|e] eqn:Hb; simpl; [|done].
      rewrite (busyLoop_acc gs [b]).
      destruct (busyLoop gs []) as [bs|e] eqn:Hbs; simpl; [|done].
      intros [= <-]. constructor; [done|]. by apply IH.
    + intros (b & bs & Hb & Hbs & ->)%Forall2_cons_inv_l.
      rewrite Hb. simpl. apply IH in Hbs. rewrite (busyLoop_acc gs [b]), Hbs. done.
Qed.

Lemma busyLoop_covered gs busy t :
  busyLoop gs [] = Ok busy ->
  covered busy t <-> exists g b, g ∈ gs /\ busyOf g = Ok b /\ covers b t.
Proof.
  intros Hrun%busyLoop_Ok.
  induction Hrun as [|g b gs busy Hb _ IH].
  - rewrite covered_nil. split; [done|]. intros (g & b & Hg & _). by apply elem_of_nil in Hg.
  - rewrite covered_cons, IH. split.
    + intros [Hc|(g' & b' & Hg' & Hb' & Hc)].
      * exists g, b. split; [by left|done].
      * exists g', b'. split; [by right|done].
    + intros (g' & b' & [->|Hg']%elem_of_cons & Hb' & Hc).
      * left. congruence.
      * right. by exists g', b'.
Qed.

Lemma busyLoop_parses gs :
  (exists busy, busyLoop gs [] = Ok busy) <->
  (forall g, g ∈ gs -> exists b, busyOf g = Ok b).
Proof.
  split.
  - intros [busy Hrun%busyLoop_Ok] g Hg.
    induction Hrun as [|g' b gs busy Hb _ IH]; [by apply elem_of_nil in Hg|].
    apply elem_of_cons in Hg as [->|Hg]; [by exists b|by apply IH].
  - induction gs as [|g gs IH]; intros Hall; [by exists []|].
    destruct (Hall g) as [b Hb]; [by left|].
    destruct IH as [bs Hbs]; [intros g' Hg'; apply Hall; by right|].
    exists (b :: bs). apply busyLoop_Ok. constructor; [done|]. by apply busyLoop_Ok.
Qed.

(** X12.  When every gig of a day parses, the day's blocks depend only on
    which gigs the day has: listing them in another order, or listing one
    twice, gives the same blocks. *)
Theorem dayBlocks_gig_set (ymd : str) (gs gs' : list Gig) (busy : list Interval) :
  busyLoop gs [] = Ok busy ->
  (forall g, g ∈ gs' <-> g ∈ gs) ->
  dayBlocks ymd gs' = dayBlocks ymd gs.
Proof.
  intros Hrun Hsame.
  destruct (proj2 (busyLoop_parses gs')) as [busy' Hrun'].
  { intros g Hg%Hsame. apply (proj1 (busyLoop_parses gs)); [by exists busy|done]. }
  unfold dayBlocks. rewrite Hrun, Hrun'. simpl.
  rewrite (mergeIntervals_same_cover busy' busy); [done|].
  intros t. rewrite (busyLoop_covered gs' busy' t Hrun'), (busyLoop_covered gs busy t Hrun).
  split; intros (g & b & Hg & Hb); exists g, b; (split; [by apply Hsame|done]).
Qed.

Lemma dayBlocks_gig_set_witness :
  dayBlocks (lit "2026-11-03")
    [mkGig None (Some (lit "1:00 PM - 3:00 PM"));
     mkGig None (Some (lit "11:20 AM - 02:00 PM"));
     mkGig None (Some (lit "1:00 PM - 3:00 PM"))]
  = dayBlocks (lit "2026-11-03")
      [mkGig None (Some (lit "11:20 AM - 02:00 PM"));
       mkGig None (Some (lit "1:00 PM - 3:00 PM"))].
Proof.
  apply (dayBlocks_gig_set _ _ _ [mkInterval 620 900; mkInterval 720 960]).
  - vm_compute. reflexivity.
  - intros g. rewrite !elem_of_cons, !elem_of_nil. tauto.
Defined.

(** X13.  A gig that parses but whose range, once widened by 60 minutes
    each side and clamped, is empty or inverted -- such as 11:00 PM to
    01:00 AM, which gives [1320, 120) -- counts for nothing: the day, blocks
    or error, is the same as without it. *)
Theorem inverted_gig_ignored (ymd : str) (gs1 gs2 : list Gig) (g : Gig) (b : Interval) :
  busyOf g = Ok b -> endMin b <= startMin b ->
  dayBlocks ymd (gs1 ++ g :: gs2) = dayBlocks ymd (gs1 ++ gs2).
Proof.
  intros Hb Hinv. unfold dayBlocks.
  rewrite !busyLoop_app. simpl. rewrite Hb. simpl. rewrite (busyLoop_acc gs2 [b]).
  destruct (busyLoop gs1 []) as [b1|e]; simpl; [|done].
  destruct (busyLoop gs2 []) as [b2|e]; simpl; [|done].
  rewrite (mergeIntervals_same_cover (b1 ++ b :: b2) (b1 ++ b2)); [done|].
  intros t. rewrite !covered_app, covered_cons. unfold covers. intuition lia.
Qed.

Lemma inverted_gig_ignored_witness :
  dayBlocks (lit "2026-11-03")
    ([mkGig None (Some (lit "10:00 AM - 02:00 PM"))]
       ++ mkGig None (Some (lit "11:00 PM - 01:00 AM")) :: [])
  = dayBlocks (lit "2026-11-03")
      ([mkGig None (Some (lit "10:00 AM - 02:00 PM"))] ++ []).
Proof.
  apply (inverted_gig_ignored _ _ _ _ (mkInterval 1320 120)).
  - vm_compute. reflexivity.
  - simpl. lia.
Defined.

(** ** More busy time *)

Lemma separated_pair l x y :
  separated l -> x ∈ l -> y ∈ l -> x = y \/ apart x y \/ apart y x.
Proof.
  intros [Hs _]. induction Hs as [|a l Hs IH Hall]; intros Hx Hy.
  - by apply elem_of_nil in Hx.
  - rewrite Forall_forall in Hall.
    apply elem_of_cons in Hx as [->|Hx]; apply elem_of_cons in Hy as [->|Hy]; auto.
Qed.

Lemma chooseMorningEnd_mono (l1 l2 : list Interval) (d : Z) :
  0 <= d -> (forall t, covered l1 t -> covered l2 t) ->
  chooseMorningEnd (mergeIntervals l2) d <= chooseMorningEnd (mergeIntervals l1) d.
Proof.
  intros Hd Hsub.
  destruct (mergeIntervals_separated l1) as [Hs1 Hc1].
  destruct (mergeIntervals_separated l2) as [Hs2 Hc2].
  unfold chooseMorningEnd.
  destruct (earliest_cases (mergeIntervals l1))
    as [[_ ->]|(pre & b & post & Hm1 & _ & Hend & ->)].
  { destruct (earliestAfterBreakfast _); unfold clamp; lia. }
  assert (Hb : b ∈ mergeIntervals l1).
  { rewrite Hm1. apply elem_of_app. right. by left. }
  assert (Hkb : kept b).
  { destruct Hs1 as [_ Hk]. rewrite Forall_forall in Hk. by apply Hk. }
  assert (Hcover : forall t, covers b t -> exists x, x ∈ mergeIntervals l2 /\ covers x t).
  { intros t Ht. apply covered_elem, Hc2. rewrite covered_filter_kept.
    apply Hsub. rewrite <- covered_filter_kept. apply Hc1, covered_elem. eauto. }
  destruct (Hcover (Z.max (startMin b) 510)) as (b' & Hb' & Hcb'); [arith|].
  assert (Hstart : startMin b' <= startMin b).
  { destruct (decide (startMin b' <= startMin b)) as [|Hgt]; [done|]. exfalso.
    destruct (Hcover (startMin b' - 1)) as (b3 & Hb3 & Hcb3); [arith|].
    destruct (separated_pair _ b3 b' Hs2 Hb3 Hb') as [->|[Ha|Ha]];
      try unfold apart in Ha; arith. }
  destruct (earliest_cases (mergeIntervals l2))
    as [[Hall _]|(pre' & b'' & post' & Hm2 & Hpre' & Hend' & ->)].
  { rewrite Forall_forall in Hall. specialize (Hall b' Hb'). arith. }
  assert (startMin b'' <= startMin b'); [|unfold clamp; lia].
  destruct Hs2 as [Hs2 Hk2]. rewrite Hm2 in Hs2, Hb', Hk2.
  assert (Hkb'' : kept b'').
  { rewrite Forall_forall in Hk2. apply Hk2, elem_of_app. right. by left. }
  apply StronglySorted_app in Hs2 as (_ & _ & Hs2).
  apply StronglySorted_cons in Hs2 as [Hpost' _].
  apply elem_of_app in Hb' as [Hin|Hin].
  - rewrite Forall_forall in Hpre'. specialize (Hpre' b' Hin). arith.
  - apply elem_of_cons in Hin as [->|Hin]; [lia|].
    rewrite Forall_forall in Hpost'. specialize (Hpost' b' Hin).
    unfold apart in Hpost'. arith.
Qed.

(** X14.  More busy time never lets the morning close later: when every
    gig of one list is also in another and both lists parse, the closing
    time computed from the larger list is at most the one computed from the
    smaller. *)
Theorem more_gigs_close_earlier (gs gs' : list Gig) (busy busy' : list Interval) :
  busyLoop gs [] = Ok busy -> busyLoop gs' [] = Ok busy' ->
  (forall g, g ∈ gs -> g ∈ gs') ->
  chooseMorningEnd (mergeIntervals busy') (hmToMinutes DEFAULT_END)
  <= chooseMorningEnd (mergeIntervals busy) (hmToMinutes DEFAULT_END).
Proof.
  intros Hrun Hrun' Hsub. apply chooseMorningEnd_mono; [by rewrite defaultEnd_780|].
  intros t. rewrite (busyLoop_covered gs busy t Hrun), (busyLoop_covered gs' busy' t Hrun').
  intros (g & b & Hg & Hb). exists g, b. split; [by apply Hsub|done].
Qed.

Lemma more_gigs_close_earlier_witness :
  chooseMorningEnd (mergeIntervals [mkInterval 620 900; mkInterval 480 600])
                   (hmToMinutes DEFAULT_END)
  <= chooseMorningEnd (mergeIntervals [mkInterval 620 900]) (hmToMinutes DEFAULT_END).
Proof.
  apply (more_gigs_close_earlier
           [mkGig None (Some (lit "11:20 AM - 02:00 PM"))]
           [mkGig None (Some (lit "11:20 AM - 02:00 PM"));
            mkGig None (Some (lit "9:00 AM - 9:00 AM"))]).
  - vm_compute. reflexivity.
  - vm_compute. reflexivity.
  - intros g Hg%list_elem_of_singleton. subst. by left.
Defined.

(** ** Splitting a range *)

Lemma splitOn_length sep s :
  length (splitOn sep s) = S (length (List.filter (N.eqb sep) s)).
Proof.
  induction s as [|c s IH]; simpl; [done|].
  rewrite (N.eqb_sym sep c). destruct (c =? sep)%N; simpl; [by rewrite IH|].
  destruct (splitOn sep s); simpl in *; [done|lia].
Qed.

Lemma splitOn_free sep s :
  List.filter (N.eqb sep) s = [] -> splitOn sep s = [s].
Proof.
  induction s as [|c s IH]; simpl; [done|].
  rewrite (N.eqb_sym sep c). destruct (c =? sep)%N; simpl; [done|].
  intros Hs. by rewrite IH.
Qed.

Lemma splitOn_first sep a b :
  List.filter (N.eqb sep) a = [] ->
  splitOn sep (a ++ sep :: b) = a :: splitOn sep b.
Proof.
  induction a as [|c a IH]; simpl.
  - by rewrite N.eqb_refl.
  - rewrite (N.eqb_sym sep c). destruct (c =? sep)%N; simpl; [done|].
    intros Hs. by rewrite IH.
Qed.

(** X15.  [parseRange] needs exactly one hyphen: a string with none or with
    two or more is rejected as a bad range before any time is parsed; a
    string [a-b] with no hyphen in [a] or [b] is parsed as the time [a] and
    then the time [b], each trimmed, and the first that fails gives the
    error. *)
Theorem parseRange_hyphens (range : str) :
  (hyphens range <> 1%nat -> parseRange range = Throw (BadRange range)) /\
  (forall a b, range = a ++ lit "-" ++ b -> hyphens a = 0%nat -> hyphens b = 0%nat ->
     parseRange range =
     parseTime12h (trim a) ≫= fun x =>
     parseTime12h (trim b) ≫= fun y => Ok (mkRange x y)).
Proof.
  split.
  - intros Hn. unfold parseRange.
    pose proof (splitOn_length 45 range) as Hlen. fold (hyphens range) in Hlen.
    destruct (splitOn 45 range) as [|p0 [|p1 [|p2 ps]]]; simpl in *; try done.
    lia.
  - intros a b -> Ha%length_zero_iff_nil Hb%length_zero_iff_nil.
    unfold parseRange. change (lit "-" ++ b) with (45%N :: b).
    by rewrite splitOn_first, (splitOn_free 45 b).
Qed.

Lemma parseRange_hyphens_witness :
  parseRange (lit "10:00 AM - 02:00 PM - 04:00 PM")
  = Throw (BadRange (lit "10:00 AM - 02:00 PM - 04:00 PM")) /\
  parseRange (lit "10:00 AM to 02:00 PM")
  = Throw (BadRange (lit "10:00 AM to 02:00 PM")) /\
  parseRange (lit " 10:00am-2:00 PM") =
  parseTime12h (trim (lit " 10:00am")) ≫= fun x =>
  parseTime12h (trim (lit "2:00 PM")) ≫= fun y => Ok (mkRange x y).
Proof.
  split; [|split].
  - apply (proj1 (parseRange_hyphens _)). vm_compute. congruence.
  - apply (proj1 (parseRange_hyphens _)). vm_compute. congruence.
  - apply (proj2 (parseRange_hyphens _)); reflexivity.
Defined.

(** ** A horizon without weekday *)

Lemma daysLoop_no_weekday (H : Host) today byDate days : forall acc,
  weekdaysOf H today days = [] ->
  daysLoop H today byDate days acc = Ok acc.
Proof.
  induction days as [|i days IH]; intros acc; [done|].
  rewrite weekdaysOf_cons, daysLoop_cons. unfold dayStep.
  destruct (isWeekday _); [done|]. simpl. apply IH.
Qed.

(** X16.  When none of the seven days passes the weekday test -- as when
    the anchor string is no date, so that every weekday is NaN -- the run
    does not fail and parses no gig: it writes the calendar with its eight
    fixed lines and no event. *)
Theorem no_weekday_empty_calendar (H : Host) (data : Data) (nowIso : str) :
  processedDays H (server_date data) = [] ->
  main H data nowIso = Ok (buildIcs [] nowIso) /\
  length (icsLines [] nowIso) = 8%nat.
Proof.
  intros Hnone. unfold main, mainBlocks.
  by rewrite daysLoop_no_weekday.
Qed.

Lemma no_weekday_empty_calendar_witness :
  main Calendar.host
       (mkData (lit "tomorrow") [mkGig (Some (lit "tomorrow")) (Some (lit "noon"))])
       clock1
  = Ok (buildIcs [] clock1) /\
  length (icsLines [] clock1) = 8%nat.
Proof. apply no_weekday_empty_calendar. vm_compute. reflexivity. Defined.

(** ** The timestamp *)

Lemma filter_digits (s : str) :
  forallb isDigit s = true ->
  List.filter (fun c => negb ((c =? 45) || (c =? 58))%N) s = s.
Proof.
  induction s as [|c s IH]; simpl; [done|].
  intros [Hc Hs]%andb_true_iff. rewrite (IH Hs).
  unfold isDigit in Hc. apply andb_true_iff in Hc as [?%N.leb_le ?%N.leb_le].
  assert ((c =? 45)%N = false) as -> by (apply N.eqb_neq; lia).
  assert ((c =? 58)%N = false) as -> by (apply N.eqb_neq; lia).
  done.
Qed.

Lemma stripMillis_cons c s :
  (5 <= length s)%nat -> stripMillis (c :: s) = c :: stripMillis s.
Proof.
  intros Hlen. destruct s as [|? [|? [|? [|? [|? ?]]]]]; simpl in Hlen; try lia.
  done.
Qed.

Lemma stripMillis_suffix pre d1 d2 d3 :
  isDigit d1 = true -> isDigit d2 = true -> isDigit d3 = true ->
  stripMillis (pre ++ [46%N; d1; d2; d3; 90%N]) = pre ++ [90%N].
Proof.
  intros H1 H2 H3. induction pre as [|c pre IH].
  - simpl. by rewrite H1, H2, H3.
  - rewrite <- !app_comm_cons, stripMillis_cons, IH; [done|].
    rewrite length_app. simpl. lia.
Qed.

(** X17.  For a clock reading in the ISO form
    [YYYY-MM-DDTHH:mm:ss.sssZ], whatever the number of digits of its fields
    and with three digits of milliseconds, the DTSTAMP value is the same
    digits with the hyphens, the colons and the milliseconds removed:
    [YYYYMMDDTHHmmssZ]. *)
Theorem dtstampOf_iso (Y Mo D h mi sec ms : str) :
  forallb isDigit (Y ++ Mo ++ D ++ h ++ mi ++ sec ++ ms) = true ->
  length ms = 3%nat ->
  dtstampOf (Y ++ lit "-" ++ Mo ++ lit "-" ++ D ++ lit "T" ++ h ++ lit ":" ++ mi
               ++ lit ":" ++ sec ++ lit "." ++ ms ++ lit "Z")
  = Y ++ Mo ++ D ++ lit "T" ++ h ++ mi ++ sec ++ lit "Z".
Proof.
  rewrite !forallb_app. intros Hd Hlen.
  repeat (apply andb_true_iff in Hd as [? Hd]).
  destruct ms as [|m1 [|m2 [|m3 [|? ?]]]]; try done.
  simpl in Hd. apply andb_true_iff in Hd as [Hm1 Hd].
  apply andb_true_iff in Hd as [Hm2 Hd]. apply andb_true_iff in Hd as [Hm3 _].
  unfold dtstampOf. rewrite !List.filter_app.
  rewrite (filter_digits Y), (filter_digits Mo), (filter_digits D),
    (filter_digits h), (filter_digits mi), (filter_digits sec) by done.
  rewrite (filter_digits [m1; m2; m3]) by (simpl; by rewrite Hm1, Hm2, Hm3).
  change (lit "-") with [45%N]. change (lit ":") with [58%N].
  change (lit "T") with [84%N]. change (lit ".") with [46%N].
  change (lit "Z") with [90%N]. simpl List.filter.
  transitivity (stripMillis ((Y ++ Mo ++ D ++ [84%N] ++ h ++ mi ++ sec)
                               ++ [46%N; m1; m2; m3; 90%N])).
  - f_equal. by rewrite <- !app_assoc.
  - rewrite stripMillis_suffix by done. by rewrite <- !app_assoc.
Qed.

Lemma dtstampOf_iso_witness :
  dtstampOf (lit "2026" ++ lit "-" ++ lit "11" ++ lit "-" ++ lit "03" ++ lit "T"
               ++ lit "06" ++ lit ":" ++ lit "00" ++ lit ":" ++ lit "01" ++ lit "."
               ++ lit "250" ++ lit "Z")
  = lit "2026" ++ lit "11" ++ lit "03" ++ lit "T" ++ lit "06" ++ lit "00"
      ++ lit "01" ++ lit "Z".
Proof. apply dtstampOf_iso; reflexivity. Defined.

(** ** The packer on any input *)

(** X18.  Whatever the free intervals and the templates are, the blocks of
    the packer's output are templates of the list, each at most once and in
    the list's order; every one carries the day it was packed for and lasts
    exactly its template's minutes; and with no free interval nothing is
    placed. *)
Theorem packBlocks_priority (blocks : list Block) (free : list Interval) (ymd : str) :
  sublist (map sb_blk (packBlocks blocks free ymd)) blocks /\
  Forall (fun p => sb_ymd p = ymd /\
                   sb_endMin p = sb_startMin p + minutes (sb_blk p))
         (packBlocks blocks free ymd) /\
  packBlocks blocks [] ymd = [].
Proof.
  split; [|split].
  - revert free. induction blocks as [|blk lower IH]; intros free; [constructor|].
    destruct (first_fit_cases (minutes blk) free)
      as [Hs|(pre & it & post & -> & Hpre & Hit)].
    + rewrite packBlocks_skip by done. apply sublist_cons, IH.
    + rewrite packBlocks_place by done. simpl. apply sublist_skip, IH.
  - revert free. induction blocks as [|blk lower IH]; intros free; [constructor|].
    destruct (first_fit_cases (minutes blk) free)
      as [Hs|(pre & it & post & -> & Hpre & Hit)].
    + rewrite packBlocks_skip by done. apply IH.
    + rewrite packBlocks_place by done. constructor; [done|apply IH].
  - induction blocks as [|blk lower IH]; [done|].
    rewrite packBlocks_skip; [done|constructor].
Qed.

(** ** Gigs outside and inside the morning *)

Lemma closing_by_cover (busy : list Interval) :
  (Forall (fun b => endMin b <= 510 \/ 780 <= startMin b) busy ->
   chooseMorningEnd (mergeIntervals busy) 780 = 780) /\
  (forall t, 510 <= t -> covered busy t ->
             chooseMorningEnd (mergeIntervals busy) 780 <= t).
Proof.
  destruct (mergeIntervals_separated busy) as [[Hs Hk] Hcov].
  assert (Hin : forall t, covered (mergeIntervals busy) t <-> covered busy t).
  { intros t. by rewrite Hcov, covered_filter_kept. }
  unfold chooseMorningEnd.
  destruct (earliest_cases (mergeIntervals busy))
    as [[Hall ->]|(pre & b & post & Hm & Hpre & Hend & ->)].
  - split; [done|]. intros t Ht Hc. apply Hin, covered_elem in Hc as (x & Hx & Hc).
    rewrite Forall_forall in Hall. specialize (Hall x Hx). arith.
  - assert (Hb : b ∈ mergeIntervals busy).
    { rewrite Hm. apply elem_of_app. right. by left. }
    assert (Hkb : kept b) by (rewrite Forall_forall in Hk; by apply Hk).
    rewrite Hm in Hs. apply StronglySorted_app in Hs as (_ & _ & Hs).
    apply StronglySorted_cons in Hs as [Hpost _].
    split.
    + intros Hout. rewrite Forall_forall in Hout.
      assert (Hfrom : forall t, covers b t -> t < 510 \/ 780 <= t).
      { intros t Ht.
        assert (Hc : covered busy t) by (apply Hin, covered_elem; eauto).
        apply covered_elem in Hc as (x & Hx & Hc). specialize (Hout x Hx). arith. }
      pose proof (Hfrom (startMin b)). pose proof (Hfrom (Z.max (startMin b) 510)).
      unfold clamp. arith.
    + intros t Ht Hc. apply Hin in Hc. rewrite Hm in Hc.
      apply covered_app in Hc as [Hc|Hc].
      * apply covered_elem in Hc as (x & Hx & Hc).
        rewrite Forall_forall in Hpre. specialize (Hpre x Hx). arith.
      * assert (startMin b <= t); [|unfold clamp; lia].
        apply covered_cons in Hc as [Hc|Hc]; [arith|].
        apply covered_elem in Hc as (x & Hx & Hc).
        rewrite Forall_forall in Hpost. specialize (Hpost x Hx).
        unfold apart in Hpost. arith.
Qed.

(** X19.  Gigs that leave the morning alone do not change it: when every
    busy interval of a day ends by 510 (08:30) or starts at 780 (13:00) or
    later -- every gig over by 07:30 or starting at 14:00 or later -- the
    day gets its three blocks as on a day without gigs. *)
Theorem gigs_outside_morning (ymd : str) (gigsForDay : list Gig) (busy : list Interval) :
  busyLoop gigsForDay [] = Ok busy ->
  Forall (fun b => endMin b <= 510 \/ 780 <= startMin b) busy ->
  dayBlocks ymd gigsForDay = Ok (freeMorning ymd).
Proof.
  intros Hrun Hout. rewrite (dayBlocks_table ymd gigsForDay busy Hrun). cbv zeta.
  rewrite (proj1 (closing_by_cover busy) Hout).
  by rewrite !decide_False by lia.
Qed.

Lemma gigs_outside_morning_witness :
  dayBlocks (lit "2026-11-03")
    [mkGig None (Some (lit "5:00 AM - 7:30 AM"));
     mkGig None (Some (lit "2:00 PM - 11:00 PM"))]
  = Ok (freeMorning (lit "2026-11-03")).
Proof.
  apply (gigs_outside_morning _ _ [mkInterval 240 510; mkInterval 780 1440]).
  - vm_compute. reflexivity.
  - repeat constructor; simpl; lia.
Defined.

(** X20.  A gig whose widened range covers any minute of the first half
    hour of the morning, 510 to 539, leaves the day without a single block,
    also when the gig is over long before 13:00: nothing is placed after
    it. *)
Theorem gig_in_first_half_hour (ymd : str) (gigsForDay : list Gig)
    (busy : list Interval) (t : Z) :
  busyLoop gigsForDay [] = Ok busy ->
  510 <= t < 540 -> covered busy t ->
  dayBlocks ymd gigsForDay = Ok [].
Proof.
  intros Hrun Ht Hc. rewrite (dayBlocks_table ymd gigsForDay busy Hrun). cbv zeta.
  pose proof (proj2 (closing_by_cover busy) t (proj1 Ht) Hc).
  by rewrite decide_True by lia.
Qed.

Lemma gig_in_first_half_hour_witness :
  dayBlocks (lit "2026-11-03") [mkGig None (Some (lit "6:00 AM - 7:45 AM"))] = Ok [].
Proof.
  apply (gig_in_first_half_hour _ _ [mkInterval 300 525] 510).
  - vm_compute. reflexivity.
  - lia.
  - apply covered_cons. left. unfold covers. simpl. lia.
Defined.

(** ** Strings the time parser accepts *)

Lemma digit_not_space c : isDigit c = true -> isSpace c = false.
Proof.
  unfold isDigit, isSpace.
  intros [?%N.leb_le ?%N.leb_le]%andb_true_iff. simpl.
  assert (Hk : forall k, (k < 48 \/ 57 < k)%N -> (c =? k)%N = false)
    by (intros k Hk; apply N.eqb_neq; lia).
  rewrite !Hk by lia.
  simpl. apply andb_false_iff. left. apply N.leb_gt. lia.
Qed.

Lemma dropSpaces_app ws s :
  forallb isSpace ws = true -> dropSpaces (ws ++ s) = dropSpaces s.
Proof.
  induction ws as [|c ws IH]; simpl; [done|].
  intros [-> Hws]%andb_true_iff. by apply IH.
Qed.

Lemma dropSpaces_keep c s : isSpace c = false -> dropSpaces (c :: s) = c :: s.
Proof. intros Hc. simpl. by rewrite Hc. Qed.

Lemma forallb_rev {A} (f : A -> bool) l : forallb f (rev l) = forallb f l.
Proof.
  induction l as [|x l IH]; simpl; [done|].
  rewrite forallb_app, IH. simpl. rewrite andb_true_r. apply andb_comm.
Qed.

(** A core that starts and ends with non-space units survives [trim]. *)
Lemma trim_core pad1 pad2 c core e :
  forallb isSpace pad1 = true -> forallb isSpace pad2 = true ->
  isSpace c = false -> isSpace e = false ->
  trim (pad1 ++ (c :: core ++ [e]) ++ pad2) = c :: core ++ [e].
Proof.
  intros H1 H2 Hc He. unfold trim.
  rewrite dropSpaces_app by done.
  rewrite <- app_comm_cons, dropSpaces_keep by done.
  rewrite app_comm_cons, rev_app_distr, dropSpaces_app by (by rewrite forallb_rev).
  rewrite app_comm_cons, rev_app_distr.
  change (rev [e] ++ rev (c :: core)) with (e :: rev (c :: core)).
  rewrite dropSpaces_keep by done.
  change (e :: rev (c :: core)) with (rev [e] ++ rev (c :: core)).
  by rewrite <- rev_app_distr, rev_involutive.
Qed.

Lemma meridiem_letters ap :
  length ap = 2%nat -> (toUpperCase ap = lit "AM" \/ toUpperCase ap = lit "PM") ->
  exists a m, ap = [a; m] /\ isSpace m = false /\
    ((matchesLetter 65 a || matchesLetter 80 a) && matchesLetter 77 m) = true.
Proof.
  intros Hlen Hap. destruct ap as [|a [|m [|? ?]]]; try done.
  exists a, m. split; [done|].
  assert (Hup : forall c k, (65 <= k <= 90)%N ->
            (if ((97 <=? c) && (c <=? 122))%N then (c - 32)%N else c) = k ->
            c = k \/ c = (k + 32)%N).
  { intros c k Hk. destruct ((97 <=? c) && (c <=? 122))%N eqn:E.
    - apply andb_true_iff in E as [?%N.leb_le ?%N.leb_le]. lia.
    - intros ->. by left. }
  assert (Hm : m = 77%N \/ m = 109%N).
  { destruct Hap as [Hap|Hap]; injection Hap as _ Hm; apply Hup in Hm; lia. }
  assert (Ha : a = 65%N \/ a = 97%N \/ a = 80%N \/ a = 112%N).
  { destruct Hap as [Hap|Hap]; injection Hap as Ha _; apply Hup in Ha; lia. }
  destruct Hm as [-> | ->]; destruct Ha as [-> | [-> | [-> | ->]]]; by vm_compute.
Qed.

(** X21.  The time parser accepts every string of this form, padded by any
    white space: an hour field of one or two decimal digits, a colon, two
    decimal digits, any white space and AM or PM in either letter case.
    The result has the minute field as it stands; the hour field 12 becomes
    0 under AM and stays 12 under PM, any other hour stays under AM and
    gains 12 under PM. *)
Theorem parseTime12h_complete (pad1 h m ws ap pad2 : str) :
  forallb isSpace pad1 = true -> forallb isSpace pad2 = true ->
  (length h = 1 \/ length h = 2)%nat -> forallb isDigit h = true ->
  length m = 2%nat -> forallb isDigit m = true ->
  forallb isSpace ws = true ->
  length ap = 2%nat -> (toUpperCase ap = lit "AM" \/ toUpperCase ap = lit "PM") ->
  parseTime12h (pad1 ++ (h ++ lit ":" ++ m ++ ws ++ ap) ++ pad2)
  = Ok (mkTime
          (if decide (toUpperCase ap = lit "AM")
           then (if decide (digitsToZ h = 12) then 0 else digitsToZ h)
           else (if decide (digitsToZ h = 12) then 12 else digitsToZ h + 12))
          (digitsToZ m)).
Proof.
  intros Hp1 Hp2 Hlh Hdh Hlm Hdm Hws Hlap Hap.
  destruct (meridiem_letters ap Hlap Hap) as (a & x & -> & Hx & Hletters).
  destruct m as [|m1 [|m2 [|? ?]]]; try done.
  simpl in Hdm. apply andb_true_iff in Hdm as [Hm1 Hdm].
  apply andb_true_iff in Hdm as [Hm2 _].
  change (lit ":") with [58%N].
  assert (Hmer : matchMeridiem (ws ++ [a; x]) = Some [a; x]).
  { unfold matchMeridiem. rewrite dropSpaces_app by done.
    assert (isSpace a = false) as Ha.
    { apply andb_true_iff in Hletters as [Ha _].
      apply orb_true_iff in Ha as [Ha|Ha]; apply matchesLetter_spec in Ha;
        destruct Ha as [-> | ->]; by vm_compute. }
    rewrite dropSpaces_keep by done. by rewrite Hletters. }
  assert (Hafter : forall hh, matchAfterHour hh (58%N :: [m1; m2] ++ ws ++ [a; x])
                              = Some (hh, [m1; m2], [a; x])).
  { intros hh. unfold matchAfterHour. simpl. rewrite Hm1, Hm2. simpl.
    by rewrite Hmer. }
  unfold parseTime12h.
  assert (Hmatch : matchTime (trim (pad1 ++ (h ++ [58%N] ++ [m1; m2] ++ ws ++ [a; x]) ++ pad2))
                   = Some (h, [m1; m2], [a; x])).
  { destruct h as [|h1 [|h2 [|? ?]]]; simpl in Hlh; try lia.
    - simpl in Hdh. apply andb_true_iff in Hdh as [Hh1 _].
      replace ([h1] ++ [58%N] ++ [m1; m2] ++ ws ++ [a; x])
        with (h1 :: (58%N :: [m1; m2] ++ ws ++ [a]) ++ [x])
        by (simpl; by rewrite <- !app_assoc).
      rewrite trim_core by (try done; by apply digit_not_space).
      replace ((58%N :: [m1; m2] ++ ws ++ [a]) ++ [x])
        with (58%N :: [m1; m2] ++ ws ++ [a; x]) by (simpl; by rewrite <- !app_assoc).
      unfold matchTime. rewrite Hh1.
      change (isDigit 58) with false. cbv iota. apply Hafter.
    - simpl in Hdh. apply andb_true_iff in Hdh as [Hh1 Hdh].
      apply andb_true_iff in Hdh as [Hh2 _].
      replace ([h1; h2] ++ [58%N] ++ [m1; m2] ++ ws ++ [a; x])
        with (h1 :: (h2 :: 58%N :: [m1; m2] ++ ws ++ [a]) ++ [x])
        by (simpl; by rewrite <- !app_assoc).
      rewrite trim_core by (try done; by apply digit_not_space).
      replace ((h2 :: 58%N :: [m1; m2] ++ ws ++ [a]) ++ [x])
        with (h2 :: 58%N :: [m1; m2] ++ ws ++ [a; x])
        by (simpl; by rewrite <- !app_assoc).
      unfold matchTime. rewrite Hh1, Hh2. by rewrite Hafter. }
  rewrite Hmatch.
  destruct (decide (toUpperCase [a; x] = lit "AM")); [done|].
  destruct (decide (digitsToZ h = 12)) as [->|]; done.
Qed.

Lemma parseTime12h_complete_witness :
  parseTime12h (lit "  " ++ (lit "9" ++ lit ":" ++ lit "05" ++ lit " " ++ lit "pM")
                  ++ lit " ")
  = Ok (mkTime
          (if decide (toUpperCase (lit "pM") = lit "AM")
           then (if decide (digitsToZ (lit "9") = 12) then 0 else digitsToZ (lit "9"))
           else (if decide (digitsToZ (lit "9") = 12) then 12
                 else digitsToZ (lit "9") + 12))
          (digitsToZ (lit "05"))).
Proof.
  apply parseTime12h_complete; try reflexivity.
  - by left.
  - by right.
Defined.
